(** * Countdown timer for the LPC1768: clock, debouncer, state machine, display

    A shallow embedding of [hal/systick.c], the parts of [hal/gpio.c] the
    application uses, and [main.c], followed by the properties of the
    control logic.

    Conventions.
    - A [uint32_t] is a [Z] in [0, 2^32); every C operation that can leave
      that range is written with its wrap-around ([add32], [sub32], [mul32]).
      A [uint8_t] and a [uint16_t] are treated alike ([wrap8], [wrap16]).
    - C integer division by zero is undefined; it is the fault
      [DivideByZero] of the [exec] monad.
    - A busy-wait loop polls a volatile location that only the environment
      changes.  The environment is an explicit argument of the loop: for
      [delay_ms] the number of tick interrupts serviced between two polls,
      for the sub-millisecond loop of [delay_us] the successive values read
      from the current-value register.  A loop that is still spinning when
      the given environment is used up ends in the fault [StillWaiting]. *)

From Stdlib Require Import ZArith List Bool Lia.
Import ListNotations.
Local Open Scope Z_scope.

(* ================================================================== *)
(** ** Machine integers *)

Definition wrap8 (z : Z) : Z := z mod 2 ^ 8.
Definition wrap16 (z : Z) : Z := z mod 2 ^ 16.
Definition wrap32 (z : Z) : Z := z mod 2 ^ 32.

Definition add32 (a b : Z) : Z := wrap32 (a + b).
Definition sub32 (a b : Z) : Z := wrap32 (a - b).
Definition mul32 (a b : Z) : Z := wrap32 (a * b).

Definition is_u32 (z : Z) : Prop := 0 <= z < 2 ^ 32.

(* ================================================================== *)
(** ** Outcome of a computation *)

Inductive fault : Type :=
| DivideByZero   (* an integer division whose divisor is zero *)
| StillWaiting.  (* a busy-wait loop outlived the given environment *)

Inductive exec (A : Type) : Type :=
| Ok (a : A)
| Err (f : fault).

Arguments Ok {A} a.
Arguments Err {A} f.

Definition bind {A B : Type} (m : exec A) (k : A -> exec B) : exec B :=
  match m with
  | Ok a => k a
  | Err f => Err f
  end.

Notation "x <- m ;; k" := (bind m (fun x => k))
  (at level 61, m at next level, right associativity).
Notation "' p <- m ;; k" := (bind m (fun p => k))
  (at level 61, p pattern, m at next level, right associativity).

(** [a / b] on [uint32_t]. *)
Definition udiv32 (a b : Z) : exec Z :=
  if b =? 0 then Err DivideByZero else Ok (a / b).

(* ================================================================== *)
(** ** hal/systick.c *)

Module Systick.

(** The SysTick register block. *)
Record SYSTICK_Type : Type := mkSYSTICK {
  CTRL : Z;
  LOAD : Z;
  VAL : Z;
  CALIB : Z
}.

Definition SYSTICK_CTRL_ENABLE : Z := Z.shiftl 1 0.
Definition SYSTICK_CTRL_TICKINT : Z := Z.shiftl 1 1.
Definition SYSTICK_CTRL_CLKSOURCE : Z := Z.shiftl 1 2.

(** The register block together with the two file-scope variables. *)
Record clock : Type := mkClock {
  SYSTICK : SYSTICK_Type;
  systick_counter : Z;
  us_per_tick : Z
}.

Definition set_counter (n : Z) (c : clock) : clock :=
  mkClock (SYSTICK c) n (us_per_tick c).

(** State before [systick_init]: the statics are zero-initialised. *)
Definition power_on : clock := mkClock (mkSYSTICK 0 0 0 0) 0 0.

(** [systick_counter++] *)
Definition SysTick_Handler (c : clock) : clock :=
  set_counter (add32 (systick_counter c) 1) c.

(** [n] tick interrupts in a row. *)
Definition ticks (n : N) (c : clock) : clock :=
  N.iter n SysTick_Handler c.

Definition systick_init (cpu_freq_hz : Z) (c : clock) : exec clock :=
  let reload_value := sub32 (cpu_freq_hz / 1000) 1 in
  upt <- udiv32 1000000 cpu_freq_hz ;;
  let ctrl := Z.lor (Z.lor SYSTICK_CTRL_ENABLE SYSTICK_CTRL_TICKINT)
                    SYSTICK_CTRL_CLKSOURCE in
  Ok (mkClock (mkSYSTICK ctrl (Z.land reload_value 16777215) 0
                         (CALIB (SYSTICK c)))
              0 upt).

(** The loop of [delay_ms]: [while ((systick_counter - start) < ms) {}].
    [irqs] gives, for each further poll, how many tick interrupts are
    serviced before it.  The result carries the part of [irqs] that was
    not consumed. *)
Fixpoint delay_ms_loop (irqs : list N) (start ms : Z) (c : clock)
  : exec (clock * list N) :=
  if sub32 (systick_counter c) start <? ms then
    match irqs with
    | [] => Err StillWaiting
    | k :: rest => delay_ms_loop rest start ms (ticks k c)
    end
  else Ok (c, irqs).

Definition delay_ms_in (irqs : list N) (ms : Z) (c : clock)
  : exec (clock * list N) :=
  let start := systick_counter c in
  delay_ms_loop irqs start ms c.

(** [delay_ms] where the tick interrupt is serviced once between two polls:
    the callers below depend on the delay only through the clock it leaves. *)
Definition delay_ms (ms : Z) (c : clock) : exec clock :=
  '(c', _) <- delay_ms_in (repeat 1%N (Z.to_nat ms)) ms c ;;
  Ok c'.

(** Elapsed ticks of the down-counter between two reads of [VAL]. *)
Definition elapsed_ticks (start reload current : Z) : Z :=
  if current <=? start then sub32 start current
  else add32 start (sub32 reload current).

(** The loop of [delay_us].  [vals] are the values the successive reads of
    [SYSTICK->VAL] return; the result is the number of reads made. *)
Fixpoint delay_us_loop (vals : list Z) (start reload ticks_needed : Z)
  (polls : nat) : exec nat :=
  match vals with
  | [] => Err StillWaiting
  | current :: rest =>
      if elapsed_ticks start reload current >=? ticks_needed
      then Ok (S polls)
      else delay_us_loop rest start reload ticks_needed (S polls)
  end.

(** What [delay_us] did: the clock after its millisecond part, the tick
    requirement it computed for the remainder ([None] when it returned
    before computing one) and the number of polls of the remainder loop. *)
Record us_report : Type := mkReport {
  after_ms : clock;
  ticks_needed : option Z;
  polls : nat
}.

Definition delay_us_in (irqs : list N) (vals : list Z) (us : Z) (c : clock)
  : exec us_report :=
  '(c1, us1) <-
     (if us >=? 1000 then
        let ms := us / 1000 in
        '(c', _) <- delay_ms_in irqs ms c ;;
        Ok (c', us mod 1000)
      else Ok (c, us)) ;;
  if us1 =? 0 then Ok (mkReport c1 None 0)
  else
    let reload := LOAD (SYSTICK c1) in
    needed <- udiv32 us1 (us_per_tick c1) ;;
    n <- delay_us_loop vals (VAL (SYSTICK c1)) reload needed 0 ;;
    Ok (mkReport c1 (Some needed) n).

Definition millis (c : clock) : Z := systick_counter c.

Definition micros (c : clock) : exec Z :=
  let ms := systick_counter c in
  let tick_val := VAL (SYSTICK c) in
  let reload := LOAD (SYSTICK c) in
  let ticks_elapsed := sub32 reload tick_val in
  us_in_current_ms <- udiv32 (mul32 ticks_elapsed 1000) (add32 reload 1) ;;
  Ok (add32 (mul32 ms 1000) us_in_current_ms).

(** [delay_us] under the environment of [delay_ms] above for its
    millisecond part; [vals] are the reads of [SYSTICK->VAL] of its
    sub-millisecond loop. *)
Definition delay_us (vals : list Z) (us : Z) (c : clock) : exec us_report :=
  delay_us_in (repeat 1%N (Z.to_nat (us / 1000))) vals us c.

End Systick.

(* ================================================================== *)
(** ** hal/gpio.h, hal/gpio.c *)

Module Gpio.

(** [GPIO_PIN(port, pin)] *)
Definition GPIO_PIN (port pin : Z) : Z :=
  Z.lor (Z.shiftl port 5) (Z.land pin 31).

Definition P0_0 : Z := GPIO_PIN 0 0.
Definition P0_22 : Z := GPIO_PIN 0 22.
Definition P1_18 : Z := GPIO_PIN 1 18.
Definition P1_20 : Z := GPIO_PIN 1 20.
Definition P1_21 : Z := GPIO_PIN 1 21.
Definition P1_23 : Z := GPIO_PIN 1 23.
Definition P2_0 : Z := GPIO_PIN 2 0.

(** Modelled from the spec: [main.c] names pins that [gpio.h] does not
    define ([P0_1] to [P0_7], [P1_22], [P2_1] to [P2_3]).  The spec says a
    pin identifier encodes a port/offset pair; they are given here by the
    header's own scheme, [Px_y = GPIO_PIN(x, y)]. *)
Definition P0_1 : Z := GPIO_PIN 0 1.
Definition P0_2 : Z := GPIO_PIN 0 2.
Definition P0_3 : Z := GPIO_PIN 0 3.
Definition P0_4 : Z := GPIO_PIN 0 4.
Definition P0_5 : Z := GPIO_PIN 0 5.
Definition P0_6 : Z := GPIO_PIN 0 6.
Definition P0_7 : Z := GPIO_PIN 0 7.
Definition P1_22 : Z := GPIO_PIN 1 22.
Definition P2_1 : Z := GPIO_PIN 2 1.
Definition P2_2 : Z := GPIO_PIN 2 2.
Definition P2_3 : Z := GPIO_PIN 2 3.

(** [gpio_state_t]; the callers pass plain integers for it. *)
Definition GPIO_LOW : Z := 0.
Definition GPIO_HIGH : Z := 1.

(** One port's register block.  [FIOPIN] holds the pin levels.  [FIOSET]
    and [FIOCLR] are write-only: storing a mask in [FIOSET] drives the
    masked pins high, storing it in [FIOCLR] drives them low, as the
    comments of [gpio_write] say; the two stores are [store_FIOSET] and
    [store_FIOCLR]. *)
Record LPC_GPIO_TypeDef : Type := mkPort {
  FIODIR : Z;
  FIOPIN : Z
}.

Record bank : Type := mkBank {
  LPC_GPIO0 : LPC_GPIO_TypeDef;
  LPC_GPIO1 : LPC_GPIO_TypeDef;
  LPC_GPIO2 : LPC_GPIO_TypeDef;
  LPC_GPIO3 : LPC_GPIO_TypeDef;
  LPC_GPIO4 : LPC_GPIO_TypeDef
}.

(** The value of a [LPC_GPIO_TypeDef *]. *)
Inductive port_ref : Type := Port0 | Port1 | Port2 | Port3 | Port4.

Definition deref (p : port_ref) (g : bank) : LPC_GPIO_TypeDef :=
  match p with
  | Port0 => LPC_GPIO0 g
  | Port1 => LPC_GPIO1 g
  | Port2 => LPC_GPIO2 g
  | Port3 => LPC_GPIO3 g
  | Port4 => LPC_GPIO4 g
  end.

Definition assign (p : port_ref) (r : LPC_GPIO_TypeDef) (g : bank) : bank :=
  match p with
  | Port0 => mkBank r (LPC_GPIO1 g) (LPC_GPIO2 g) (LPC_GPIO3 g) (LPC_GPIO4 g)
  | Port1 => mkBank (LPC_GPIO0 g) r (LPC_GPIO2 g) (LPC_GPIO3 g) (LPC_GPIO4 g)
  | Port2 => mkBank (LPC_GPIO0 g) (LPC_GPIO1 g) r (LPC_GPIO3 g) (LPC_GPIO4 g)
  | Port3 => mkBank (LPC_GPIO0 g) (LPC_GPIO1 g) (LPC_GPIO2 g) r (LPC_GPIO4 g)
  | Port4 => mkBank (LPC_GPIO0 g) (LPC_GPIO1 g) (LPC_GPIO2 g) (LPC_GPIO3 g) r
  end.

Definition store_FIOSET (mask : Z) (r : LPC_GPIO_TypeDef) : LPC_GPIO_TypeDef :=
  mkPort (FIODIR r) (Z.lor (FIOPIN r) mask).

Definition store_FIOCLR (mask : Z) (r : LPC_GPIO_TypeDef) : LPC_GPIO_TypeDef :=
  mkPort (FIODIR r) (Z.ldiff (FIOPIN r) mask).

Definition get_gpio_port (pin : Z) : port_ref :=
  let port := Z.shiftr pin 5 in
  match port with
  | 0 => Port0
  | 1 => Port1
  | 2 => Port2
  | 3 => Port3
  | 4 => Port4
  | _ => Port0
  end.

Definition get_pin_mask (pin : Z) : Z :=
  let pin_num := Z.land pin 31 in
  Z.shiftl 1 pin_num.

Definition gpio_write (pin value : Z) (g : bank) : bank :=
  let gpio := get_gpio_port pin in
  let mask := get_pin_mask pin in
  if value =? GPIO_HIGH
  then assign gpio (store_FIOSET mask (deref gpio g)) g
  else assign gpio (store_FIOCLR mask (deref gpio g)) g.

Definition gpio_read (pin : Z) (g : bank) : Z :=
  let gpio := get_gpio_port pin in
  let mask := get_pin_mask pin in
  if Z.land (FIOPIN (deref gpio g)) mask =? 0 then GPIO_LOW else GPIO_HIGH.

(** A run of [gpio_write] calls, in order. *)
Definition gpio_writes (ws : list (Z * Z)) (g : bank) : bank :=
  fold_left (fun acc w => gpio_write (fst w) (snd w) acc) ws g.

(** [gpio_dir_t] and [gpio_pull_t]. *)
Definition GPIO_INPUT : Z := 0.
Definition GPIO_OUTPUT : Z := 1.
Definition GPIO_PULL_NONE : Z := 0.
Definition GPIO_PULL_DOWN : Z := 1.
Definition GPIO_PULL_UP : Z := 2.
Definition GPIO_REPEATER : Z := 3.

(** Modelled from the spec: the pin-connect registers come from the vendor
    header [lpc17xx.h], which is not part of the sources; [gpio.c] names
    [PINSEL0-4, 7, 9] and [PINMODE0-4, 7, 9].  The spec treats them as raw
    peripheral registers: each is a 32-bit word, and the two banks have the
    same shape. *)
Record pin_regs : Type := mkRegs {
  reg0 : Z;
  reg1 : Z;
  reg2 : Z;
  reg3 : Z;
  reg4 : Z;
  reg7 : Z;
  reg9 : Z
}.

Record pincon : Type := mkPincon {
  PINSEL : pin_regs;
  PINMODE : pin_regs
}.

(** The value of [pinsel_reg] and of [pinmode_reg]: which register of the
    bank. *)
Inductive reg_ref : Type := Reg0 | Reg1 | Reg2 | Reg3 | Reg4 | Reg7 | Reg9.

Definition reg_deref (p : reg_ref) (r : pin_regs) : Z :=
  match p with
  | Reg0 => reg0 r
  | Reg1 => reg1 r
  | Reg2 => reg2 r
  | Reg3 => reg3 r
  | Reg4 => reg4 r
  | Reg7 => reg7 r
  | Reg9 => reg9 r
  end.

Definition reg_assign (p : reg_ref) (v : Z) (r : pin_regs) : pin_regs :=
  match p with
  | Reg0 => mkRegs v (reg1 r) (reg2 r) (reg3 r) (reg4 r) (reg7 r) (reg9 r)
  | Reg1 => mkRegs (reg0 r) v (reg2 r) (reg3 r) (reg4 r) (reg7 r) (reg9 r)
  | Reg2 => mkRegs (reg0 r) (reg1 r) v (reg3 r) (reg4 r) (reg7 r) (reg9 r)
  | Reg3 => mkRegs (reg0 r) (reg1 r) (reg2 r) v (reg4 r) (reg7 r) (reg9 r)
  | Reg4 => mkRegs (reg0 r) (reg1 r) (reg2 r) (reg3 r) v (reg7 r) (reg9 r)
  | Reg7 => mkRegs (reg0 r) (reg1 r) (reg2 r) (reg3 r) (reg4 r) v (reg9 r)
  | Reg9 => mkRegs (reg0 r) (reg1 r) (reg2 r) (reg3 r) (reg4 r) (reg7 r) v
  end.

(** The register selection of [set_pin_function] and [set_pin_pull]; the
    two functions hold the same chain, on [PINSELn] and on [PINMODEn].
    [None] is the final [return]. *)
Definition pin_register (pin : Z) : option reg_ref :=
  let port := Z.shiftr pin 5 in
  let pin_num := Z.land pin 31 in
  if port =? 0 then Some (if pin_num <? 16 then Reg0 else Reg1)
  else if port =? 1 then Some (if pin_num <? 16 then Reg2 else Reg3)
  else if port =? 2 then Some Reg4
  else if port =? 3 then Some Reg7
  else if port =? 4 then Some Reg9
  else None.

(** [bit_pos = (pin_num % 16) * 2] *)
Definition bit_pos (pin : Z) : Z :=
  let pin_num := Z.land pin 31 in
  (pin_num mod 16) * 2.

Definition set_pin_function (pin : Z) (pinsel : pin_regs) : pin_regs :=
  match pin_register pin with
  | Some pinsel_reg =>
      reg_assign pinsel_reg
        (Z.land (reg_deref pinsel_reg pinsel)
                (Z.lnot (Z.shiftl 3 (bit_pos pin))))
        pinsel
  | None => pinsel
  end.

Definition set_pin_pull (pin pull : Z) (pinmode : pin_regs) : pin_regs :=
  match pin_register pin with
  | Some pinmode_reg =>
      let cleared := Z.land (reg_deref pinmode_reg pinmode)
                            (Z.lnot (Z.shiftl 3 (bit_pos pin))) in
      reg_assign pinmode_reg (Z.lor cleared (Z.shiftl pull (bit_pos pin)))
                 pinmode
  | None => pinmode
  end.

(** The pin-connect block and the GPIO ports together. *)
Record chip : Type := mkChip {
  con : pincon;
  io : bank
}.

Definition gpio_init (ch : chip) : chip := ch.

Definition gpio_config (pin dir pull : Z) (ch : chip) : chip :=
  let gpio := get_gpio_port pin in
  let mask := get_pin_mask pin in
  let pinsel := set_pin_function pin (PINSEL (con ch)) in
  let pinmode := set_pin_pull pin pull (PINMODE (con ch)) in
  let port := deref gpio (io ch) in
  let fiodir :=
    if dir =? GPIO_OUTPUT then Z.lor (FIODIR port) mask
    else Z.land (FIODIR port) (Z.lnot mask) in
  mkChip (mkPincon pinsel pinmode)
         (assign gpio (mkPort fiodir (FIOPIN port)) (io ch)).

Definition gpio_toggle (pin : Z) (g : bank) : bank :=
  let gpio := get_gpio_port pin in
  let mask := get_pin_mask pin in
  assign gpio (mkPort (FIODIR (deref gpio g))
                      (Z.lxor (FIOPIN (deref gpio g)) mask)) g.

(** [gpio_write] on the ports of a chip. *)
Definition chip_write (pin value : Z) (ch : chip) : chip :=
  mkChip (con ch) (gpio_write pin value (io ch)).

End Gpio.

(* ================================================================== *)
(** ** main.c *)

Module Main.

Import Systick Gpio.

Definition BTN_COUNTDOWN : Z := P1_20.
Definition BTN_SET : Z := P1_21.
Definition BTN_START : Z := P1_22.
Definition BTN_RESET : Z := P1_23.

Definition SEG_A : Z := P0_0.
Definition SEG_B : Z := P0_1.
Definition SEG_C : Z := P0_2.
Definition SEG_D : Z := P0_3.
Definition SEG_E : Z := P0_4.
Definition SEG_F : Z := P0_5.
Definition SEG_G : Z := P0_6.
Definition SEG_DP : Z := P0_7.

Definition DIGIT_1 : Z := P2_0.
Definition DIGIT_2 : Z := P2_1.
Definition DIGIT_3 : Z := P2_2.
Definition DIGIT_4 : Z := P2_3.

Definition seg_patterns : list Z :=
  [0x3F; 0x06; 0x5B; 0x4F; 0x66; 0x6D; 0x7D; 0x07; 0x7F; 0x6F].

Definition seg_pins : list Z :=
  [SEG_A; SEG_B; SEG_C; SEG_D; SEG_E; SEG_F; SEG_G; SEG_DP].

Definition digit_pins : list Z := [DIGIT_1; DIGIT_2; DIGIT_3; DIGIT_4].

(** [a[i]] for an index inside the array. *)
Definition at_index (a : list Z) (i : Z) : Z := nth (Z.to_nat i) a 0.

Inductive timer_state_t : Type :=
| STATE_SET
| STATE_RUNNING
| STATE_PAUSED
| STATE_DONE.

Definition state_eqb (a b : timer_state_t) : bool :=
  match a, b with
  | STATE_SET, STATE_SET
  | STATE_RUNNING, STATE_RUNNING
  | STATE_PAUSED, STATE_PAUSED
  | STATE_DONE, STATE_DONE => true
  | _, _ => false
  end.

(** The hardware and the globals of [main.c]; [current_digit] is the
    static local of [display_number]. *)
Record machine : Type := mkMachine {
  clk : clock;
  gpio : bank;
  state : timer_state_t;
  timer_value : Z;
  set_value : Z;
  last_tick : Z;
  btn_start_prev : Z;
  btn_countdown_prev : Z;
  btn_set_prev : Z;
  btn_reset_prev : Z;
  current_digit : Z
}.

Definition set_clk (c : clock) (m : machine) : machine :=
  mkMachine c (gpio m) (state m) (timer_value m) (set_value m) (last_tick m)
    (btn_start_prev m) (btn_countdown_prev m) (btn_set_prev m)
    (btn_reset_prev m) (current_digit m).

Definition set_gpio (g : bank) (m : machine) : machine :=
  mkMachine (clk m) g (state m) (timer_value m) (set_value m) (last_tick m)
    (btn_start_prev m) (btn_countdown_prev m) (btn_set_prev m)
    (btn_reset_prev m) (current_digit m).

Definition set_state (s : timer_state_t) (m : machine) : machine :=
  mkMachine (clk m) (gpio m) s (timer_value m) (set_value m) (last_tick m)
    (btn_start_prev m) (btn_countdown_prev m) (btn_set_prev m)
    (btn_reset_prev m) (current_digit m).

Definition set_timer_value (v : Z) (m : machine) : machine :=
  mkMachine (clk m) (gpio m) (state m) v (set_value m) (last_tick m)
    (btn_start_prev m) (btn_countdown_prev m) (btn_set_prev m)
    (btn_reset_prev m) (current_digit m).

Definition set_set_value (v : Z) (m : machine) : machine :=
  mkMachine (clk m) (gpio m) (state m) (timer_value m) v (last_tick m)
    (btn_start_prev m) (btn_countdown_prev m) (btn_set_prev m)
    (btn_reset_prev m) (current_digit m).

Definition set_last_tick (v : Z) (m : machine) : machine :=
  mkMachine (clk m) (gpio m) (state m) (timer_value m) (set_value m) v
    (btn_start_prev m) (btn_countdown_prev m) (btn_set_prev m)
    (btn_reset_prev m) (current_digit m).

Definition set_current_digit (v : Z) (m : machine) : machine :=
  mkMachine (clk m) (gpio m) (state m) (timer_value m) (set_value m)
    (last_tick m) (btn_start_prev m) (btn_countdown_prev m) (btn_set_prev m)
    (btn_reset_prev m) v.

(** The value of the [uint8_t *prev_state] argument of [read_button]. *)
Inductive prev_ref : Type :=
| Ref_btn_start_prev
| Ref_btn_countdown_prev
| Ref_btn_set_prev
| Ref_btn_reset_prev.

Definition load (p : prev_ref) (m : machine) : Z :=
  match p with
  | Ref_btn_start_prev => btn_start_prev m
  | Ref_btn_countdown_prev => btn_countdown_prev m
  | Ref_btn_set_prev => btn_set_prev m
  | Ref_btn_reset_prev => btn_reset_prev m
  end.

Definition store (p : prev_ref) (v : Z) (m : machine) : machine :=
  match p with
  | Ref_btn_start_prev =>
      mkMachine (clk m) (gpio m) (state m) (timer_value m) (set_value m)
        (last_tick m) v (btn_countdown_prev m) (btn_set_prev m)
        (btn_reset_prev m) (current_digit m)
  | Ref_btn_countdown_prev =>
      mkMachine (clk m) (gpio m) (state m) (timer_value m) (set_value m)
        (last_tick m) (btn_start_prev m) v (btn_set_prev m)
        (btn_reset_prev m) (current_digit m)
  | Ref_btn_set_prev =>
      mkMachine (clk m) (gpio m) (state m) (timer_value m) (set_value m)
        (last_tick m) (btn_start_prev m) (btn_countdown_prev m) v
        (btn_reset_prev m) (current_digit m)
  | Ref_btn_reset_prev =>
      mkMachine (clk m) (gpio m) (state m) (timer_value m) (set_value m)
        (last_tick m) (btn_start_prev m) (btn_countdown_prev m)
        (btn_set_prev m) v (current_digit m)
  end.

(** The globals as their initialisers leave them, on a given hardware. *)
Definition boot (c : clock) (g : bank) : machine :=
  mkMachine c g STATE_SET 0 60 0 0 0 0 0 0.

(** C's [!x]. *)
Definition c_not (x : Z) : Z := if x =? 0 then 1 else 0.

(** The [gpio_write] calls of [write_segment], in order. *)
Definition write_segment (pattern : Z) : list (Z * Z) :=
  map (fun i => (at_index seg_pins i, Z.land (Z.shiftr pattern i) 1))
      [0; 1; 2; 3; 4; 5; 6].

(** The [gpio_write] calls of [display_digit], in order. *)
Definition display_digit_writes (digit_pos value dp : Z) : list (Z * Z) :=
  map (fun i => (at_index digit_pins i, GPIO_LOW)) [0; 1; 2; 3]
  ++ (if value <=? 9 then write_segment (at_index seg_patterns value)
      else write_segment 0)
  ++ [(SEG_DP, dp)]
  ++ [(at_index digit_pins digit_pos, GPIO_HIGH)].

Definition display_digit (digit_pos value dp : Z) (g : bank) : bank :=
  gpio_writes (display_digit_writes digit_pos value dp) g.

(** The [gpio_write] calls of one [display_number]. *)
Definition display_number_writes (number current : Z) : list (Z * Z) :=
  let d1 := wrap8 ((number / 1000) mod 10) in
  let d2 := wrap8 ((number / 100) mod 10) in
  let d3 := wrap8 ((number / 10) mod 10) in
  let d4 := wrap8 (number mod 10) in
  match current with
  | 0 => display_digit_writes 0 d1 0
  | 1 => display_digit_writes 1 d2 1
  | 2 => display_digit_writes 2 d3 0
  | 3 => display_digit_writes 3 d4 0
  | _ => []
  end.

Definition display_number (number : Z) (m : machine) : machine :=
  let g := gpio_writes (display_number_writes number (current_digit m))
                       (gpio m) in
  set_current_digit (wrap8 ((current_digit m + 1) mod 4)) (set_gpio g m).

Definition read_button (pin : Z) (prev_state : prev_ref) (m : machine)
  : exec (Z * machine) :=
  let current := c_not (gpio_read pin (gpio m)) in
  '(pressed, m1) <-
     (if negb (current =? 0) && negb (c_not (load prev_state m) =? 0)
      then c' <- delay_ms 50 (clk m) ;; Ok (1, set_clk c' m)
      else Ok (0, m)) ;;
  Ok (pressed, store prev_state current m1).

Definition timer_update (m : machine) : machine :=
  let current_time := millis (clk m) in
  if state_eqb (state m) STATE_RUNNING
     && (sub32 current_time (last_tick m) >=? 1000)
  then
    let m1 := set_last_tick current_time m in
    if timer_value m1 >? 0
    then set_timer_value (sub32 (timer_value m1) 1) m1
    else set_state STATE_DONE m1
  else m.

(** The bodies of the four [if (read_button(...))] statements. *)
Definition on_countdown (m : machine) : machine :=
  if state_eqb (state m) STATE_SET
  then set_timer_value (set_value m) m
  else m.

Definition on_set (m : machine) : machine :=
  if state_eqb (state m) STATE_SET then
    let m1 := set_set_value (add32 (set_value m) 10) m in
    let m2 := if set_value m1 >? 5999 then set_set_value 10 m1 else m1 in
    set_timer_value (set_value m2) m2
  else m.

Definition on_start (m : machine) : machine :=
  match state m with
  | STATE_SET =>
      let m1 := set_state STATE_RUNNING m in
      let m2 := set_timer_value (set_value m1) m1 in
      set_last_tick (millis (clk m2)) m2
  | STATE_RUNNING => set_state STATE_PAUSED m
  | STATE_PAUSED =>
      let m1 := set_state STATE_RUNNING m in
      set_last_tick (millis (clk m1)) m1
  | STATE_DONE =>
      let m1 := set_state STATE_SET m in
      set_timer_value (set_value m1) m1
  end.

Definition on_reset (m : machine) : machine :=
  let m1 := set_state STATE_SET m in
  set_timer_value (set_value m1) m1.

(** [if (read_button(pin, &prev)) { body }] *)
Definition if_button (pin : Z) (prev_state : prev_ref)
  (body : machine -> machine) (m : machine) : exec machine :=
  '(pressed, m1) <- read_button pin prev_state m ;;
  Ok (if pressed =? 0 then m1 else body m1).

Definition process_buttons (m : machine) : exec machine :=
  m1 <- if_button BTN_COUNTDOWN Ref_btn_countdown_prev on_countdown m ;;
  m2 <- if_button BTN_SET Ref_btn_set_prev on_set m1 ;;
  m3 <- if_button BTN_START Ref_btn_start_prev on_start m2 ;;
  if_button BTN_RESET Ref_btn_reset_prev on_reset m3.

Definition format_time_mmss (seconds : Z) : Z :=
  let minutes := seconds / 60 in
  let secs := seconds mod 60 in
  wrap16 (add32 (mul32 minutes 100) secs).

(** The two loops of [display_init]. *)
Definition display_init (ch : chip) : chip :=
  let ch1 :=
    fold_left
      (fun acc i =>
         chip_write (at_index seg_pins i) GPIO_LOW
           (gpio_config (at_index seg_pins i) GPIO_OUTPUT GPIO_PULL_NONE acc))
      [0; 1; 2; 3; 4; 5; 6; 7] ch in
  fold_left
    (fun acc i =>
       chip_write (at_index digit_pins i) GPIO_LOW
         (gpio_config (at_index digit_pins i) GPIO_OUTPUT GPIO_PULL_NONE acc))
    [0; 1; 2; 3] ch1.

Definition buttons_init (ch : chip) : chip :=
  let ch1 := gpio_config BTN_COUNTDOWN GPIO_INPUT GPIO_PULL_UP ch in
  let ch2 := gpio_config BTN_SET GPIO_INPUT GPIO_PULL_UP ch1 in
  let ch3 := gpio_config BTN_START GPIO_INPUT GPIO_PULL_UP ch2 in
  gpio_config BTN_RESET GPIO_INPUT GPIO_PULL_UP ch3.

(** [main] up to its loop; the pin-connect block is no part of [machine]
    and is passed along. *)
Definition main_setup (pc : pincon) (m : machine) : exec (pincon * machine) :=
  c <- systick_init 12000000 (clk m) ;;
  let ch := buttons_init (display_init (gpio_init (mkChip pc (gpio m)))) in
  let m1 := set_gpio (io ch) (set_clk c m) in
  Ok (con ch, set_timer_value (set_value m1) m1).

(** One pass of the [while(1)] loop of [main]. *)
Definition main_loop_body (vals : list Z) (m : machine) : exec machine :=
  m1 <- process_buttons m ;;
  let m2 := timer_update m1 in
  let display_val := format_time_mmss (timer_value m2) in
  let m3 := display_number display_val m2 in
  r <- delay_us vals 2000 (clk m3) ;;
  Ok (set_clk (after_ms r) m3).

End Main.

(* ================================================================== *)
(** ** Notions used by the properties *)

Import Systick Gpio Main.

(** The tick count read [n] interrupts after [c]. *)
Definition reading (c : clock) (n : N) : Z := millis (ticks n c).

(** A clock three ticks before the counter wraps. *)
Definition near_wrap : clock := set_counter (2 ^ 32 - 3) power_on.

(** The down-counter has counted to [v]. *)
Definition counted_to (v : Z) (c : clock) : clock :=
  mkClock (mkSYSTICK (CTRL (SYSTICK c)) (LOAD (SYSTICK c)) v
                     (CALIB (SYSTICK c)))
          (systick_counter c) (us_per_tick c).

(** Microseconds into the current millisecond, from the down-counter. *)
Definition us_in_current_ms (c : clock) : Z :=
  (LOAD (SYSTICK c) - VAL (SYSTICK c)) * 1000 / (LOAD (SYSTICK c) + 1).

(** The down-counter is inside its period and the period is short enough
    for [ticks_elapsed * 1000] to fit 32 bits. *)
Definition counting (c : clock) : Prop :=
  0 <= VAL (SYSTICK c) <= LOAD (SYSTICK c) /\ LOAD (SYSTICK c) < 4294967.

(** A 100 MHz clock with a zero tick count, 296 us into a millisecond. *)
Definition at_296us : clock := mkClock (mkSYSTICK 7 99999 70399 0) 0 0.

(** The down-counter [t] clock cycles after it read [start]: it counts down
    to 0 and then reloads [reload], as the comments of [systick_init] and
    [delay_us] describe it. *)
Definition down_counter (reload start t : Z) : Z :=
  (start - t) mod (reload + 1).

(** The clock [d] tick interrupts later, then the per-second update. *)
Definition update_after (d : N) (m : machine) : machine :=
  timer_update (set_clk (ticks d (clk m)) m).

(** The per-second update at each of the given intervals in turn. *)
Definition updates_after (ds : list N) (m : machine) : machine :=
  fold_left (fun acc d => update_after d acc) ds m.

(** The two-bit field of a pin in a pin-connect register bank. *)
Definition pin_field (pin : Z) (r : pin_regs) : option Z :=
  match pin_register pin with
  | Some ref => Some (Z.land (Z.shiftr (reg_deref ref r) (bit_pos pin)) 3)
  | None => None
  end.

(** The direction bit of a pin. *)
Definition is_output (pin : Z) (g : bank) : bool :=
  Z.testbit (FIODIR (deref (get_gpio_port pin) g)) (Z.land pin 31).

(** A pin identifier with a port the chip has. *)
Definition valid_pin (pin : Z) : Prop := 0 <= pin < 160.

(** The value of the last write to [pin] in a run of writes, if any. *)
Fixpoint last_write (pin : Z) (ws : list (Z * Z)) : option Z :=
  match ws with
  | [] => None
  | w :: rest =>
      match last_write pin rest with
      | Some v => Some v
      | None => if fst w =? pin then Some (snd w) else None
      end
  end.

(** The level a written value stands for. *)
Definition level_of (value : Z) : Z :=
  if value =? GPIO_HIGH then GPIO_HIGH else GPIO_LOW.

(** A pin set up as an output that drives low: GPIO function, no pull
    resistor, direction bit set, level low. *)
Definition output_low (pin : Z) (ch : chip) : Prop :=
  pin_field pin (PINSEL (con ch)) = Some 0
  /\ pin_field pin (PINMODE (con ch)) = Some GPIO_PULL_NONE
  /\ is_output pin (io ch) = true
  /\ gpio_read pin (io ch) = GPIO_LOW.

(** A pin set up as an input with its pull-up on. *)
Definition input_pulled_up (pin : Z) (ch : chip) : Prop :=
  pin_field pin (PINSEL (con ch)) = Some 0
  /\ pin_field pin (PINMODE (con ch)) = Some GPIO_PULL_UP
  /\ is_output pin (io ch) = false.

(** A valid pin whose field it shares with no other such pin: any pin of
    ports 0 and 1, and the pins 0 to 15 of the other ports. *)
Definition plain_pin (pin : Z) : Prop :=
  valid_pin pin /\ (pin < 64 \/ pin mod 32 < 16).

(** One step of the loops of [display_init]. *)
Definition init_output (acc : chip) (pin : Z) : chip :=
  chip_write pin GPIO_LOW (gpio_config pin GPIO_OUTPUT GPIO_PULL_NONE acc).

(** The 7-segment pattern a digit value is shown with. *)
Definition shown_pattern (value : Z) : Z :=
  if value <=? 9 then at_index seg_patterns value else 0.

(** Interrupts serviced over a stretch of the environment. *)
Definition serviced (irqs : list N) : N := fold_right N.add 0%N irqs.

(** The pin is driven to [level] from outside the chip. *)
Definition drive (pin level : Z) (m : machine) : machine :=
  set_gpio (gpio_write pin level (gpio m)) m.

(** The poll sees a press that the previous poll did not. *)
Definition edge (pin : Z) (p : prev_ref) (m : machine) : bool :=
  (c_not (gpio_read pin (gpio m)) =? 1) && (load p m =? 0).

(** Successive polls of one button, the pin being at the given level at
    each poll; the result lists what the polls returned. *)
Fixpoint poll_each (pin : Z) (prev_state : prev_ref) (levels : list Z)
  (m : machine) : exec (list Z * machine) :=
  match levels with
  | [] => Ok ([], m)
  | level :: rest =>
      '(pressed, m1) <- read_button pin prev_state (drive pin level m) ;;
      '(more, m2) <- poll_each pin prev_state rest m1 ;;
      Ok (pressed :: more, m2)
  end.

(** No button pressed: the pulled-up inputs of port 1 read high. *)
Definition released : bank :=
  mkBank (mkPort 0 0) (mkPort 0 (2 ^ 32 - 1)) (mkPort 0 0) (mkPort 0 0)
         (mkPort 0 0).

(** A countdown in progress: tick count [now], reference tick [last],
    [remaining] seconds to go out of 60. *)
Definition running (now last remaining : Z) : machine :=
  mkMachine (set_counter now power_on) released STATE_RUNNING remaining 60
            last 0 0 0 0 0.

(** The update from [m] to [m'] moved the reference tick by whole
    seconds: by a multiple of 1000 that leaves it less than 1000 behind the
    tick count. *)
Definition advanced_by_whole_seconds (m m' : machine) : Prop :=
  sub32 (last_tick m') (last_tick m) mod 1000 = 0
  /\ sub32 (millis (clk m)) (last_tick m') < 1000.

(** The set value after one increment. *)
Definition bump (v : Z) : Z :=
  if add32 v 10 >? 5999 then 10 else add32 v 10.

(** The ranges of the data model. *)
Definition in_range (m : machine) : Prop :=
  10 <= set_value m <= 5999 /\ 0 <= timer_value m <= 5999.

(** States the program can be in: the initialised globals, the first
    assignment of [main], the operations of the main loop, and whatever
    happens to the hardware in between (interrupts, pin changes, and the
    initialisation and delay calls of [main], which touch the clock and the
    pins only). *)
Inductive reachable : machine -> Prop :=
| reach_boot : forall c g, reachable (boot c g)
| reach_arm : forall m,
    reachable m -> reachable (set_timer_value (set_value m) m)
| reach_button : forall pin prev_state body m m',
    reachable m ->
    In body [on_countdown; on_set; on_start; on_reset] ->
    if_button pin prev_state body m = Ok m' ->
    reachable m'
| reach_update : forall m, reachable m -> reachable (timer_update m)
| reach_display : forall number m,
    reachable m -> reachable (display_number number m)
| reach_hardware : forall c g m,
    reachable m -> reachable (set_clk c (set_gpio g m)).

(** Positions whose digit-enable line is high. *)
Definition enabled_digits (g : bank) : list Z :=
  filter (fun i => gpio_read (at_index digit_pins i) g =? GPIO_HIGH)
         [0; 1; 2; 3].

(** Consecutive [display_number] calls; the result lists, per call, the
    positions enabled when it returns. *)
Fixpoint display_each (numbers : list Z) (m : machine)
  : list (list Z) * machine :=
  match numbers with
  | [] => ([], m)
  | number :: rest =>
      let m1 := display_number number m in
      let '(more, m2) := display_each rest m1 in
      (enabled_digits (gpio m1) :: more, m2)
  end.

(* ================================================================== *)
(** ** The millisecond counter *)

Lemma wrap32_range (z : Z) : is_u32 (wrap32 z).
Proof. unfold is_u32, wrap32. apply Z.mod_pos_bound. lia. Qed.

Lemma wrap32_small (z : Z) : is_u32 z -> wrap32 z = z.
Proof. unfold is_u32, wrap32. intros H. apply Z.mod_small. exact H. Qed.

Lemma wrap32_le (z : Z) : 0 <= z -> wrap32 z <= z.
Proof. unfold wrap32. intros H. apply Z.mod_le; lia. Qed.

Lemma ticks_succ (n : N) (c : clock) :
  ticks (N.succ n) c = SysTick_Handler (ticks n c).
Proof. unfold ticks. apply N.iter_succ. Qed.

Lemma ticks_add (a b : N) (c : clock) :
  ticks (a + b) c = ticks b (ticks a c).
Proof.
  unfold ticks. rewrite N.add_comm. apply N.iter_add.
Qed.

(** The counter after [n] interrupts is congruent to the old one plus [n]. *)
Lemma counter_after (n : N) (c : clock) (z : Z) :
  wrap32 (systick_counter (ticks n c) - z)
  = wrap32 (systick_counter c + Z.of_N n - z).
Proof.
  revert z. induction n as [|n IH] using N.peano_ind; intros z.
  - unfold ticks. simpl. f_equal. lia.
  - rewrite ticks_succ. unfold SysTick_Handler, set_counter, add32.
    cbn [systick_counter]. unfold wrap32 at 1 2.
    rewrite Zminus_mod_idemp_l. fold (wrap32 (systick_counter (ticks n c) + 1 - z)).
    replace (systick_counter (ticks n c) + 1 - z)
      with (systick_counter (ticks n c) - (z - 1)) by lia.
    rewrite IH. f_equal. lia.
Qed.

Lemma elapsed_after (n : N) (c : clock) :
  sub32 (systick_counter (ticks n c)) (systick_counter c) = wrap32 (Z.of_N n).
Proof.
  unfold sub32. rewrite counter_after. f_equal. lia.
Qed.

Lemma reading_difference (c : clock) (a n : N) :
  sub32 (reading c (a + n)) (reading c a) = wrap32 (Z.of_N n).
Proof.
  unfold reading, millis. rewrite ticks_add. apply elapsed_after.
Qed.

(** What the loop of [delay_ms] guarantees when it ends. *)
Lemma delay_ms_loop_sound (irqs : list N) :
  forall (start ms : Z) (c c' : clock) (rest : list N),
    delay_ms_loop irqs start ms c = Ok (c', rest) ->
    exists used,
      irqs = used ++ rest /\ c' = ticks (serviced used) c
      /\ ms <= sub32 (systick_counter c') start.
Proof.
  induction irqs as [|k irqs IH]; intros start ms c c' rest; cbn [delay_ms_loop].
  - destruct (Z.ltb_spec (sub32 (systick_counter c) start) ms) as [Hlt|Hge].
    + discriminate.
    + intros E. injection E as <- <-. exists []. repeat split. exact Hge.
  - destruct (Z.ltb_spec (sub32 (systick_counter c) start) ms) as [Hlt|Hge].
    + intros E. apply IH in E. destruct E as (used & -> & -> & Hms).
      exists (k :: used). repeat split.
      * cbn [serviced fold_right]. fold (serviced used).
        symmetry. apply ticks_add.
      * exact Hms.
    + intros E. injection E as <- <-. exists []. repeat split. exact Hge.
Qed.

(** With one interrupt per poll the loop ends after [ms] of them. *)
Lemma delay_ms_loop_unit (n : nat) :
  forall (done : N) (ms : Z) (c0 : clock),
    Z.of_N done + Z.of_nat n = ms -> ms < 2 ^ 32 ->
    delay_ms_loop (repeat 1%N n) (systick_counter c0) ms (ticks done c0)
    = Ok (ticks (done + N.of_nat n) c0, []).
Proof.
  induction n as [|n IH]; intros done ms c0 Hsum Hms; cbn [repeat delay_ms_loop];
    rewrite elapsed_after, wrap32_small by (unfold is_u32; lia).
  - destruct (Z.ltb_spec (Z.of_N done) ms); [lia|].
    rewrite N.add_0_r. reflexivity.
  - destruct (Z.ltb_spec (Z.of_N done) ms); [|lia].
    rewrite <- ticks_add. rewrite (IH (done + 1)%N ms c0) by lia.
    do 3 f_equal. lia.
Qed.

Lemma delay_ms_returns (ms : Z) (c : clock) :
  0 <= ms < 2 ^ 32 -> delay_ms ms c = Ok (ticks (Z.to_N ms) c).
Proof.
  intros H. unfold delay_ms, delay_ms_in.
  change c with (ticks 0 c) at 2.
  rewrite (delay_ms_loop_unit (Z.to_nat ms) 0%N ms c) by lia.
  cbn [bind]. do 2 f_equal. lia.
Qed.

(** C5, as stated, fails: two readings taken 2^32 ms apart (the counter
    wraps once in between) have modular difference 0, not 2^32. *)
Lemma modular_difference_full_period :
  sub32 (reading power_on (5 + 4294967296)) (reading power_on 5)
  <> Z.of_N 4294967296.
Proof.
  rewrite reading_difference. vm_compute. discriminate.
Qed.

(** C5, amended: for two readings of the tick count taken in order and
    fewer than 2^32 ms apart, the difference modulo 2^32 is the number of
    ticks elapsed, wherever the counter stands (so also across a wrap);
    [delay_ms], whenever it returns, has let at least [ms] ticks pass, and
    it does return when the interrupt is serviced between polls. *)
Theorem modular_difference_is_elapsed :
  (forall (c : clock) (a n : N),
      Z.of_N n < 2 ^ 32 ->
      sub32 (reading c (a + n)) (reading c a) = Z.of_N n)
  /\ (forall (irqs rest : list N) (ms : Z) (c c' : clock),
         delay_ms_in irqs ms c = Ok (c', rest) ->
         exists used,
           irqs = used ++ rest /\ c' = ticks (serviced used) c
           /\ ms <= Z.of_N (serviced used))
  /\ (forall (ms : Z) (c : clock),
         0 <= ms < 2 ^ 32 -> delay_ms ms c = Ok (ticks (Z.to_N ms) c)).
Proof.
  split; [|split].
  - intros c a n Hn. rewrite reading_difference.
    apply wrap32_small. unfold is_u32. lia.
  - intros irqs rest ms c c' E. unfold delay_ms_in in E.
    apply delay_ms_loop_sound in E. destruct E as (used & Hsplit & Hc' & Hms).
    exists used. repeat split; try assumption.
    rewrite Hc', elapsed_after in Hms.
    pose proof (wrap32_le (Z.of_N (serviced used)) (N2Z.is_nonneg _)). lia.
  - exact delay_ms_returns.
Qed.

Lemma modular_difference_is_elapsed_witness :
  sub32 (reading near_wrap (0 + 10)) (reading near_wrap 0) = Z.of_N 10
  /\ (exists used,
         [2%N; 3%N; 1%N] = used ++ [1%N]
         /\ ticks 5 near_wrap = ticks (serviced used) near_wrap
         /\ 5 <= Z.of_N (serviced used))
  /\ delay_ms 5 near_wrap = Ok (ticks (Z.to_N 5) near_wrap).
Proof.
  destruct modular_difference_is_elapsed as (Hdiff & Hwait & Hret).
  split; [|split].
  - apply Hdiff. vm_compute. reflexivity.
  - apply (Hwait [2%N; 3%N; 1%N] [1%N] 5 near_wrap (ticks 5 near_wrap)).
    vm_compute. reflexivity.
  - apply Hret. lia.
Defined.

(* ================================================================== *)
(** ** Initialisation of the clock *)

(** C3, as stated, fails: with frequency zero [systick_init] is not
    rejected; it reaches [1000000 / cpu_freq_hz] with a zero divisor. *)
Lemma systick_init_zero_frequency :
  systick_init 0 power_on = Err DivideByZero.
Proof. reflexivity. Qed.

(** C3, amended: [systick_init] has no error result of its own and does
    not test its argument; for every non-zero frequency the two tick-rate
    divisions are defined and it completes with the 24-bit reload value
    [(f / 1000 - 1) & 0xFFFFFF], [us_per_tick = 1000000 / f], the counter
    enabled with its interrupt on the processor clock, and a tick count
    of 0. *)
Theorem systick_init_nonzero_frequency (f : Z) (c : clock) :
  f <> 0 ->
  systick_init f c
  = Ok (mkClock (mkSYSTICK 7 (Z.land (sub32 (f / 1000) 1) 16777215) 0
                           (CALIB (SYSTICK c)))
                0 (1000000 / f)).
Proof.
  intros Hf. unfold systick_init, udiv32.
  destruct (Z.eqb_spec f 0) as [E|_]; [contradiction|]. reflexivity.
Qed.

Lemma systick_init_nonzero_frequency_witness :
  12000000 <> 0
  /\ systick_init 12000000 power_on
     = Ok (mkClock (mkSYSTICK 7 11999 0 0) 0 0).
Proof.
  split; [discriminate|].
  apply (systick_init_nonzero_frequency 12000000 power_on). discriminate.
Defined.

(* ================================================================== *)
(** ** Microsecond delay *)

(** C4: the tick requirement of [delay_us] is [us / us_per_tick] with
    [us_per_tick = 1000000 / cpu_freq_hz], both rounded down.  At the
    12 MHz of [main] (and at any frequency above 1 MHz) [us_per_tick] is 0
    and a 500 us delay divides by zero.  At 500 kHz (2 us per tick) a 3 us
    delay asks for one tick only and returns when the counter has moved
    from 300 to 299, that is after 2 us, and a 1 us delay asks for no tick
    and returns on the first read of the counter, whatever it shows. *)
Theorem delay_us_tick_requirement :
  (forall (irqs : list N) (vals : list Z) (c : clock),
      (c1 <- systick_init 12000000 c ;; delay_us_in irqs vals 500 c1)
      = Err DivideByZero)
  /\ (forall (irqs : list N) (vals : list Z) (c : clock),
         (c1 <- systick_init 100000000 c ;; delay_us_in irqs vals 500 c1)
         = Err DivideByZero)
  /\ (forall (irqs : list N) (vals : list Z) (c : clock),
         (c1 <- systick_init 500000 c ;;
          r <- delay_us_in irqs (299 :: vals) 3 (counted_to 300 c1) ;;
          Ok (us_per_tick c1, ticks_needed r, polls r))
         = Ok (2, Some 1, 1%nat))
  /\ (forall (irqs : list N) (v : Z) (vals : list Z) (c : clock),
         (c1 <- systick_init 500000 c ;;
          r <- delay_us_in irqs (v :: vals) 1 c1 ;;
          Ok (ticks_needed r, polls r))
         = Ok (Some 0, 1%nat)).
Proof.
  repeat split; intros; try reflexivity.
  cbn. unfold elapsed_ticks.
  destruct (v <=? 0);
    match goal with
    | |- context [?e >=? 0] =>
        destruct (Z.geb_spec e 0) as [_|Hneg]; [reflexivity|]
    end.
  - pose proof (wrap32_range (0 - v)) as R. unfold sub32 in Hneg.
    unfold is_u32 in R. lia.
  - pose proof (wrap32_range (0 + sub32 499 v)) as R. unfold add32 in Hneg.
    unfold is_u32 in R. lia.
Qed.

(* ================================================================== *)
(** ** Microsecond query *)

Lemma micros_value (c : clock) :
  0 <= LOAD (SYSTICK c) < 2 ^ 24 ->
  micros c
  = Ok (wrap32 (systick_counter c * 1000
                + mul32 (sub32 (LOAD (SYSTICK c)) (VAL (SYSTICK c))) 1000
                  / add32 (LOAD (SYSTICK c)) 1)).
Proof.
  intros HL. unfold micros, udiv32.
  assert (E : add32 (LOAD (SYSTICK c)) 1 = LOAD (SYSTICK c) + 1).
  { apply wrap32_small. unfold is_u32. lia. }
  rewrite E. destruct (Z.eqb_spec (LOAD (SYSTICK c) + 1) 0) as [H0|_]; [lia|].
  cbn [bind]. f_equal. unfold add32, mul32, wrap32.
  apply Zplus_mod_idemp_l.
Qed.

Lemma micros_within_ms (c : clock) :
  counting c ->
  mul32 (sub32 (LOAD (SYSTICK c)) (VAL (SYSTICK c))) 1000
  / add32 (LOAD (SYSTICK c)) 1 = us_in_current_ms c
  /\ 0 <= us_in_current_ms c < 1000.
Proof.
  intros [HV HL]. unfold us_in_current_ms.
  unfold mul32, sub32, add32.
  rewrite !wrap32_small by (unfold is_u32; try rewrite wrap32_small;
                            unfold is_u32; lia).
  split; [reflexivity|]. split.
  - apply Z.div_pos; lia.
  - apply Z.div_lt_upper_bound; nia.
Qed.

Lemma ticks_regs (n : N) (c : clock) :
  SYSTICK (ticks n c) = SYSTICK c /\ us_per_tick (ticks n c) = us_per_tick c.
Proof.
  induction n as [|n IH] using N.peano_ind.
  - split; reflexivity.
  - rewrite ticks_succ. exact IH.
Qed.

Lemma ticks_counter (n : N) (c : clock) :
  is_u32 (systick_counter c) ->
  systick_counter (ticks n c) = wrap32 (systick_counter c + Z.of_N n).
Proof.
  intros Hc. pose proof (counter_after n c 0) as E.
  rewrite !Z.sub_0_r in E. rewrite <- E. symmetry. apply wrap32_small.
  destruct n as [|p] using N.peano_ind; [exact Hc|].
  rewrite ticks_succ. apply wrap32_range.
Qed.

Lemma ticks_counting (n : N) (c : clock) : counting c -> counting (ticks n c).
Proof.
  unfold counting. destruct (ticks_regs n c) as [-> _]. trivial.
Qed.

Lemma ticks_us (n : N) (c : clock) :
  us_in_current_ms (ticks n c) = us_in_current_ms c.
Proof.
  unfold us_in_current_ms. destruct (ticks_regs n c) as [-> _]. reflexivity.
Qed.

Lemma micros_counting (c : clock) :
  counting c ->
  micros c = Ok (wrap32 (systick_counter c * 1000 + us_in_current_ms c)).
Proof.
  intros Hc. destruct (micros_within_ms c Hc) as [E _].
  rewrite micros_value, E; [reflexivity|].
  destruct Hc as [HV HL]. lia.
Qed.

(** C10: [micros] is the tick count times 1000 plus the microseconds into
    the current millisecond, reduced modulo 2^32.  Counted from a zero tick
    count it is exact up to 2^32 us and has wrapped once past that, in the
    72nd minute (at 71 minutes it is exact, at 72 it has wrapped), while
    the millisecond count wraps in the 50th day only. *)
Theorem micros_wraps_at_2_32_us :
  (forall c : clock,
      0 <= LOAD (SYSTICK c) < 2 ^ 24 ->
      micros c
      = Ok (wrap32 (systick_counter c * 1000
                    + mul32 (sub32 (LOAD (SYSTICK c)) (VAL (SYSTICK c))) 1000
                      / add32 (LOAD (SYSTICK c)) 1)))
  /\ (forall c : clock,
         counting c ->
         micros c = Ok (wrap32 (systick_counter c * 1000 + us_in_current_ms c))
         /\ 0 <= us_in_current_ms c < 1000)
  /\ (forall (c : clock) (n : N),
         counting c -> systick_counter c = 0 ->
         Z.of_N n * 1000 + us_in_current_ms c < 2 ^ 32 ->
         micros (ticks n c) = Ok (Z.of_N n * 1000 + us_in_current_ms c))
  /\ (forall (c : clock) (n : N),
         counting c -> systick_counter c = 0 ->
         2 ^ 32 <= Z.of_N n * 1000 + us_in_current_ms c < 2 ^ 33 ->
         micros (ticks n c)
         = Ok (Z.of_N n * 1000 + us_in_current_ms c - 2 ^ 32)
         /\ millis (ticks n c) = Z.of_N n)
  /\ (forall c : clock,
         counting c -> systick_counter c = 0 ->
         micros (ticks (71 * 60000) c)
         = Ok (71 * 60000000 + us_in_current_ms c)
         /\ micros (ticks (72 * 60000) c)
            = Ok (72 * 60000000 + us_in_current_ms c - 2 ^ 32)
         /\ millis (ticks (49 * 86400000) c) = 49 * 86400000
         /\ millis (ticks (50 * 86400000) c) = 50 * 86400000 - 2 ^ 32).
Proof.
  assert (unwrapped : forall (c : clock) (n : N),
             counting c -> systick_counter c = 0 ->
             Z.of_N n * 1000 + us_in_current_ms c < 2 ^ 32 ->
             micros (ticks n c) = Ok (Z.of_N n * 1000 + us_in_current_ms c)).
  { intros c n Hc H0 Hlt.
    destruct (micros_within_ms c Hc) as [_ Hus].
    rewrite micros_counting by (apply ticks_counting; exact Hc).
    rewrite ticks_us, ticks_counter, H0 by (rewrite H0; unfold is_u32; lia).
    rewrite (wrap32_small (0 + Z.of_N n)) by (unfold is_u32; lia).
    rewrite wrap32_small by (unfold is_u32; lia). reflexivity. }
  assert (wrapped : forall (c : clock) (n : N),
             counting c -> systick_counter c = 0 ->
             2 ^ 32 <= Z.of_N n * 1000 + us_in_current_ms c < 2 ^ 33 ->
             micros (ticks n c)
             = Ok (Z.of_N n * 1000 + us_in_current_ms c - 2 ^ 32)
             /\ millis (ticks n c) = Z.of_N n).
  { intros c n Hc H0 Hge.
    destruct (micros_within_ms c Hc) as [_ Hus].
    rewrite micros_counting by (apply ticks_counting; exact Hc).
    unfold millis.
    rewrite ticks_us, ticks_counter, H0 by (rewrite H0; unfold is_u32; lia).
    rewrite (wrap32_small (0 + Z.of_N n)) by (unfold is_u32; lia).
    split; [|lia]. f_equal. unfold wrap32.
    symmetry. apply Z.mod_unique with (q := 1); lia. }
  split; [exact micros_value|].
  split; [|split; [exact unwrapped|split; [exact wrapped|]]].
  - intros c Hc. split.
    + apply micros_counting, Hc.
    + apply micros_within_ms, Hc.
  - intros c Hc H0. destruct (micros_within_ms c Hc) as [_ Hus].
    split; [|split; [|split]].
    + apply unwrapped; try assumption.
      change (Z.of_N (71 * 60000)) with 4260000. lia.
    + apply (wrapped c (72 * 60000)%N); try assumption.
      change (Z.of_N (72 * 60000)) with 4320000. lia.
    + unfold millis. rewrite ticks_counter, H0 by (rewrite H0; unfold is_u32; lia).
      apply wrap32_small. vm_compute. split; [discriminate|reflexivity].
    + unfold millis. rewrite ticks_counter, H0 by (rewrite H0; unfold is_u32; lia).
      vm_compute. reflexivity.
Qed.

Lemma micros_wraps_at_2_32_us_witness :
  micros at_296us = Ok 296
  /\ micros (ticks 4294966 at_296us) = Ok 4294966296
  /\ (micros (ticks 4294967 at_296us) = Ok 0
      /\ millis (ticks 4294967 at_296us) = 4294967)
  /\ micros (ticks (72 * 60000) at_296us) = Ok 25033000.
Proof.
  destruct micros_wraps_at_2_32_us as (Hval & Hus & Hexact & Hwrap & Hmin).
  assert (Hc : counting at_296us) by (vm_compute; intuition discriminate).
  split; [|split; [|split]].
  - exact (proj1 (Hus at_296us Hc)).
  - apply (Hexact at_296us 4294966%N Hc eq_refl). reflexivity.
  - apply (Hwrap at_296us 4294967%N Hc eq_refl).
    split; [discriminate|reflexivity].
  - exact (proj1 (proj2 (Hmin at_296us Hc eq_refl))).
Defined.

(* ================================================================== *)
(** ** Per-second update *)

(** C1, as stated, fails: 1500 ms after the reference tick the update
    moves the reference by 1500, which is no multiple of 1000. *)
Lemma reference_tick_not_whole_seconds :
  ~ advanced_by_whole_seconds (running 1500 0 5)
                              (timer_update (running 1500 0 5)).
Proof.
  unfold advanced_by_whole_seconds. vm_compute. intros [H _]. discriminate H.
Qed.

(** C1, amended: in [STATE_RUNNING], once the tick count is at least 1000
    past [last_tick] (modulo 2^32), the update sets [last_tick] to the
    current tick count, so the reference moves by all of the elapsed time
    and nothing of it is carried over. *)
Theorem timer_update_sets_reference_to_now (m : machine) :
  state m = STATE_RUNNING ->
  1000 <= sub32 (millis (clk m)) (last_tick m) ->
  last_tick (timer_update m) = millis (clk m)
  /\ sub32 (last_tick (timer_update m)) (last_tick m)
     = sub32 (millis (clk m)) (last_tick m)
  /\ sub32 (millis (clk m)) (last_tick (timer_update m)) = 0.
Proof.
  intros Hs He. unfold timer_update. rewrite Hs. cbn [state_eqb andb].
  destruct (Z.geb_spec (sub32 (millis (clk m)) (last_tick m)) 1000) as [_|H];
    [|lia].
  assert (E : forall a, sub32 a a = 0).
  { intros a. unfold sub32, wrap32. rewrite Z.sub_diag. reflexivity. }
  destruct (timer_value (set_last_tick (millis (clk m)) m) >? 0);
    cbn; rewrite E; auto.
Qed.

Lemma timer_update_sets_reference_to_now_witness :
  last_tick (timer_update (running 1500 0 5)) = 1500.
Proof.
  apply (timer_update_sets_reference_to_now (running 1500 0 5)).
  - reflexivity.
  - vm_compute. discriminate.
Defined.

(** C2, as stated, fails: from one second remaining the update leaves
    [STATE_RUNNING] in place. *)
Lemma last_second_still_running :
  ~ (timer_value (timer_update (running 1000 0 1)) = 0
     /\ state (timer_update (running 1000 0 1)) = STATE_DONE).
Proof. vm_compute. intros [_ H]. discriminate H. Qed.

(** C2, amended: in [STATE_RUNNING] with one second remaining and at least
    1000 ms elapsed, the update leaves zero seconds remaining and the state
    [STATE_RUNNING]; the update that finds at least 1000 ms elapsed again
    then moves to [STATE_DONE], the remaining time staying zero. *)
Theorem last_second_then_done (m : machine) :
  state m = STATE_RUNNING ->
  timer_value m = 1 ->
  1000 <= sub32 (millis (clk m)) (last_tick m) ->
  timer_value (timer_update m) = 0
  /\ state (timer_update m) = STATE_RUNNING
  /\ forall (c : clock) (g : bank),
       1000 <= sub32 (millis c) (last_tick (timer_update m)) ->
       timer_value (timer_update (set_clk c (set_gpio g (timer_update m)))) = 0
       /\ state (timer_update (set_clk c (set_gpio g (timer_update m))))
          = STATE_DONE.
Proof.
  intros Hs Ht He.
  assert (E : timer_update m
              = set_timer_value 0 (set_last_tick (millis (clk m)) m)).
  { unfold timer_update. rewrite Hs. cbn [state_eqb andb].
    destruct (Z.geb_spec (sub32 (millis (clk m)) (last_tick m)) 1000) as [_|H];
      [|lia].
    cbn. rewrite Ht. reflexivity. }
  rewrite E. split; [reflexivity|]. split; [cbn; exact Hs|].
  intros c g He2. cbn in He2. unfold timer_update. cbn. rewrite Hs.
  cbn [state_eqb andb].
  destruct (Z.geb_spec (sub32 (millis c) (millis (clk m))) 1000) as [_|H];
    [|unfold millis in *; lia].
  cbn. split; reflexivity.
Qed.

Lemma last_second_then_done_witness :
  timer_value (timer_update (running 1000 0 1)) = 0
  /\ state (timer_update (running 1000 0 1)) = STATE_RUNNING
  /\ timer_value
       (timer_update (set_clk (set_counter 2000 power_on)
                              (set_gpio released
                                        (timer_update (running 1000 0 1)))))
     = 0
  /\ state
       (timer_update (set_clk (set_counter 2000 power_on)
                              (set_gpio released
                                        (timer_update (running 1000 0 1)))))
     = STATE_DONE.
Proof.
  destruct (last_second_then_done (running 1000 0 1)) as (Hzero & Hrun & Hnext).
  - reflexivity.
  - reflexivity.
  - vm_compute. discriminate.
  - split; [exact Hzero|]. split; [exact Hrun|].
    apply (Hnext (set_counter 2000 power_on) released).
    vm_compute. discriminate.
Defined.

(* ================================================================== *)
(** ** Buttons *)

Lemma Ok_inj {A : Type} (a b : A) : Ok a = Ok b -> a = b.
Proof. intros E. injection E as E. exact E. Qed.

(** [read_button] in closed form. *)
Lemma read_button_closed (pin : Z) (p : prev_ref) (m : machine) :
  read_button pin p m
  = Ok (if edge pin p m then 1 else 0,
        store p (c_not (gpio_read pin (gpio m)))
              (if edge pin p m then set_clk (ticks 50 (clk m)) m else m)).
Proof.
  unfold read_button, edge.
  rewrite (delay_ms_returns 50 (clk m)) by lia.
  unfold c_not.
  destruct (gpio_read pin (gpio m) =? 0); destruct (load p m =? 0);
    reflexivity.
Qed.

Lemma if_button_closed (pin : Z) (p : prev_ref) (body : machine -> machine)
  (m : machine) :
  if_button pin p body m
  = Ok (if edge pin p m
        then body (store p (c_not (gpio_read pin (gpio m)))
                         (set_clk (ticks 50 (clk m)) m))
        else store p (c_not (gpio_read pin (gpio m))) m).
Proof.
  unfold if_button. rewrite read_button_closed.
  destruct (edge pin p m); reflexivity.
Qed.

Lemma store_fields (p : prev_ref) (v : Z) (m : machine) :
  state (store p v m) = state m
  /\ timer_value (store p v m) = timer_value m
  /\ set_value (store p v m) = set_value m
  /\ last_tick (store p v m) = last_tick m
  /\ clk (store p v m) = clk m
  /\ gpio (store p v m) = gpio m
  /\ load p (store p v m) = v.
Proof. destruct p; cbn; repeat split. Qed.

(** Polling a button touches the clock and the button's own history only. *)
Lemma read_button_frame (pin : Z) (p : prev_ref) (m m1 : machine) (pressed : Z) :
  read_button pin p m = Ok (pressed, m1) ->
  state m1 = state m /\ timer_value m1 = timer_value m
  /\ set_value m1 = set_value m /\ last_tick m1 = last_tick m
  /\ gpio m1 = gpio m.
Proof.
  rewrite read_button_closed. intros E. injection E as _ <-.
  destruct p, (edge pin _ m); cbn; repeat split.
Qed.

(** The four bodies leave the pins and the button histories alone. *)
Lemma body_frame (body : machine -> machine) (m : machine) :
  In body [on_countdown; on_set; on_start; on_reset] ->
  gpio (body m) = gpio m /\ clk (body m) = clk m
  /\ forall q, load q (body m) = load q m.
Proof.
  intros [<-|[<-|[<-|[<-|[]]]]].
  - unfold on_countdown. destruct (state_eqb (state m) STATE_SET);
      repeat split; intros []; reflexivity.
  - unfold on_set. destruct (state_eqb (state m) STATE_SET);
      [|repeat split; intros []; reflexivity].
    cbn. destruct (add32 (set_value m) 10 >? 5999);
      repeat split; intros []; reflexivity.
  - unfold on_start. destruct (state m);
      repeat split; intros []; reflexivity.
  - repeat split; intros []; reflexivity.
Qed.

(** A button statement leaves the pins and the other buttons' history. *)
Lemma if_button_frame (pin : Z) (p : prev_ref) (body : machine -> machine)
  (m m' : machine) :
  In body [on_countdown; on_set; on_start; on_reset] ->
  if_button pin p body m = Ok m' ->
  gpio m' = gpio m
  /\ forall q, q <> p -> load q m' = load q m.
Proof.
  intros Hb. rewrite if_button_closed.
  destruct (edge pin p m); intros E; apply Ok_inj in E; subst m'.
  - destruct (body_frame body
                (store p (c_not (gpio_read pin (gpio m)))
                       (set_clk (ticks 50 (clk m)) m)) Hb) as (-> & _ & Hq).
    split; [destruct p; reflexivity|].
    intros q Hne. rewrite Hq. destruct p, q; try reflexivity; contradiction.
  - split; [destruct p; reflexivity|].
    intros q Hne. destruct p, q; try reflexivity; contradiction.
Qed.

(** C8: the Reset statement of [process_buttons], when its poll sees the
    edge (pin low, previous sample not pressed), ends in [STATE_SET] with
    [timer_value] equal to [set_value] and [set_value] as it was, whatever
    the state and the remaining time before; the body alone does so from
    every machine state, and a whole [process_buttons] pass whose Reset
    poll sees the edge ends in [STATE_SET] with [timer_value = set_value]. *)
Theorem reset_returns_to_set :
  (forall m : machine,
      state (on_reset m) = STATE_SET
      /\ timer_value (on_reset m) = set_value m
      /\ set_value (on_reset m) = set_value m)
  /\ (forall m : machine,
         gpio_read BTN_RESET (gpio m) = GPIO_LOW ->
         btn_reset_prev m = 0 ->
         exists m',
           if_button BTN_RESET Ref_btn_reset_prev on_reset m = Ok m'
           /\ state m' = STATE_SET
           /\ timer_value m' = set_value m
           /\ set_value m' = set_value m)
  /\ (forall m : machine,
         gpio_read BTN_RESET (gpio m) = GPIO_LOW ->
         btn_reset_prev m = 0 ->
         exists m',
           process_buttons m = Ok m'
           /\ state m' = STATE_SET
           /\ timer_value m' = set_value m').
Proof.
  assert (body : forall m : machine,
             state (on_reset m) = STATE_SET
             /\ timer_value (on_reset m) = set_value m
             /\ set_value (on_reset m) = set_value m).
  { intros m. repeat split. }
  assert (stmt : forall m : machine,
             gpio_read BTN_RESET (gpio m) = GPIO_LOW ->
             btn_reset_prev m = 0 ->
             exists m',
               if_button BTN_RESET Ref_btn_reset_prev on_reset m = Ok m'
               /\ state m' = STATE_SET
               /\ timer_value m' = set_value m
               /\ set_value m' = set_value m).
  { intros m Hlow Hprev. rewrite if_button_closed. unfold edge.
    rewrite Hlow. cbn [load]. rewrite Hprev. cbn.
    eexists. split; [reflexivity|]. repeat split. }
  split; [exact body|]. split; [exact stmt|].
  intros m Hlow Hprev. unfold process_buttons.
  destruct (if_button BTN_COUNTDOWN Ref_btn_countdown_prev on_countdown m)
    as [m1|] eqn:E1; [|rewrite if_button_closed in E1; discriminate].
  apply if_button_frame in E1; [|cbn; tauto]. destruct E1 as [G1 L1].
  cbn [bind].
  destruct (if_button BTN_SET Ref_btn_set_prev on_set m1)
    as [m2|] eqn:E2; [|rewrite if_button_closed in E2; discriminate].
  apply if_button_frame in E2; [|cbn; tauto]. destruct E2 as [G2 L2].
  cbn [bind].
  destruct (if_button BTN_START Ref_btn_start_prev on_start m2)
    as [m3|] eqn:E3; [|rewrite if_button_closed in E3; discriminate].
  apply if_button_frame in E3; [|cbn; tauto]. destruct E3 as [G3 L3].
  cbn [bind].
  destruct (stmt m3) as (m' & E & Hs & Ht & Hv).
  - rewrite G3, G2, G1. exact Hlow.
  - change (load Ref_btn_reset_prev m3 = 0).
    rewrite L3, L2, L1 by discriminate. exact Hprev.
  - exists m'. split; [exact E|]. split; [exact Hs|]. congruence.
Qed.

Lemma reset_returns_to_set_witness :
  (exists m',
      if_button BTN_RESET Ref_btn_reset_prev on_reset
                (drive BTN_RESET GPIO_LOW (running 1500 0 5)) = Ok m'
      /\ state m' = STATE_SET
      /\ timer_value m' = 60
      /\ set_value m' = 60)
  /\ (exists m',
         process_buttons (drive BTN_RESET GPIO_LOW (running 1500 0 5)) = Ok m'
         /\ state m' = STATE_SET
         /\ timer_value m' = set_value m').
Proof.
  destruct reset_returns_to_set as (_ & Hstmt & Hpass).
  split.
  - apply (Hstmt (drive BTN_RESET GPIO_LOW (running 1500 0 5)));
      reflexivity.
  - apply (Hpass (drive BTN_RESET GPIO_LOW (running 1500 0 5)));
      reflexivity.
Defined.

(* ================================================================== *)
(** ** Ranges of the set value and the remaining time *)

Lemma add32_10 (v : Z) : 0 <= v < 2 ^ 32 - 10 -> add32 v 10 = v + 10.
Proof. intros H. apply wrap32_small. unfold is_u32. lia. Qed.

Lemma bump_spec (v : Z) :
  0 <= v < 2 ^ 32 - 10 ->
  (v + 10 <= 5999 -> bump v = v + 10) /\ (5999 < v + 10 -> bump v = 10).
Proof.
  intros H. unfold bump. rewrite add32_10 by exact H.
  destruct (Z.gtb_spec (v + 10) 5999); split; intros; try reflexivity; lia.
Qed.

Lemma bump_range (v : Z) : 10 <= v <= 5999 -> 10 <= bump v <= 5999.
Proof.
  intros H. destruct (bump_spec v) as [Hlo Hhi]; [lia|].
  destruct (Z.le_gt_cases (v + 10) 5999).
  - rewrite Hlo; lia.
  - rewrite Hhi; lia.
Qed.

Lemma on_set_in_set (m : machine) :
  state m = STATE_SET ->
  state (on_set m) = STATE_SET
  /\ set_value (on_set m) = bump (set_value m)
  /\ timer_value (on_set m) = bump (set_value m).
Proof.
  intros Hs. unfold on_set, bump. rewrite Hs. cbn.
  destruct (add32 (set_value m) 10 >? 5999); cbn; auto.
Qed.

Lemma on_set_iter (m : machine) (k : nat) :
  state m = STATE_SET ->
  state (Nat.iter k on_set m) = STATE_SET
  /\ set_value (Nat.iter k on_set m) = Nat.iter k bump (set_value m)
  /\ (k <> 0%nat ->
      timer_value (Nat.iter k on_set m) = set_value (Nat.iter k on_set m)).
Proof.
  intros Hs. induction k as [|k (IHs & IHv & _)].
  - repeat split; [exact Hs|contradiction].
  - rewrite !Nat.iter_succ.
    destruct (on_set_in_set (Nat.iter k on_set m) IHs) as (Es & Ev & Et).
    rewrite Es, Ev, Et, IHv. repeat split.
Qed.

Lemma body_in_range (body : machine -> machine) (m : machine) :
  In body [on_countdown; on_set; on_start; on_reset] ->
  in_range m -> in_range (body m).
Proof.
  unfold in_range. intros [<-|[<-|[<-|[<-|[]]]]] [Hv Ht].
  - unfold on_countdown. destruct (state_eqb (state m) STATE_SET); cbn; lia.
  - destruct (state m) eqn:Hs;
      try (unfold on_set; rewrite Hs; cbn; lia).
    destruct (on_set_in_set m Hs) as (_ & -> & ->).
    pose proof (bump_range (set_value m) Hv). lia.
  - unfold on_start. destruct (state m); cbn; lia.
  - unfold on_reset. cbn. lia.
Qed.

Lemma timer_update_in_range (m : machine) :
  in_range m -> in_range (timer_update m).
Proof.
  unfold in_range, timer_update. intros [Hv Ht].
  destruct (state_eqb (state m) STATE_RUNNING
            && (sub32 (millis (clk m)) (last_tick m) >=? 1000));
    [|lia].
  cbn. destruct (Z.gtb_spec (timer_value m) 0); cbn; [|lia].
  unfold sub32. rewrite wrap32_small by (unfold is_u32; lia). lia.
Qed.

Lemma reachable_in_range (m : machine) : reachable m -> in_range m.
Proof.
  induction 1 as [c g|m _ IH|pin p body m m' _ IH Hb E|m _ IH|n m _ IH
                 |c g m _ IH].
  - unfold in_range. cbn. lia.
  - unfold in_range in *. cbn. lia.
  - rewrite if_button_closed in E. apply Ok_inj in E. subst m'.
    destruct (edge pin p m).
    + apply body_in_range; [exact Hb|].
      unfold in_range in *. destruct p; cbn; exact IH.
    + unfold in_range in *. destruct p; cbn; exact IH.
  - apply timer_update_in_range, IH.
  - exact IH.
  - exact IH.
Qed.

Lemma process_buttons_reachable (m : machine) :
  reachable m -> exists m', process_buttons m = Ok m' /\ reachable m'.
Proof.
  intros R. unfold process_buttons.
  destruct (if_button BTN_COUNTDOWN Ref_btn_countdown_prev on_countdown m)
    as [m1|] eqn:E1; [|rewrite if_button_closed in E1; discriminate].
  destruct (if_button BTN_SET Ref_btn_set_prev on_set m1)
    as [m2|] eqn:E2; [|rewrite if_button_closed in E2; discriminate].
  destruct (if_button BTN_START Ref_btn_start_prev on_start m2)
    as [m3|] eqn:E3; [|rewrite if_button_closed in E3; discriminate].
  destruct (if_button BTN_RESET Ref_btn_reset_prev on_reset m3)
    as [m4|] eqn:E4; [|rewrite if_button_closed in E4; discriminate].
  cbn [bind]. rewrite E2. cbn [bind]. rewrite E3. cbn [bind]. rewrite E4.
  exists m4. split; [reflexivity|].
  apply (reach_button BTN_RESET Ref_btn_reset_prev on_reset m3 m4);
    [|cbn; tauto|exact E4].
  apply (reach_button BTN_START Ref_btn_start_prev on_start m2 m3);
    [|cbn; tauto|exact E3].
  apply (reach_button BTN_SET Ref_btn_set_prev on_set m1 m2);
    [|cbn; tauto|exact E2].
  apply (reach_button BTN_COUNTDOWN Ref_btn_countdown_prev on_countdown m m1);
    [exact R|cbn; tauto|exact E1].
Qed.

(** C7: every state reachable from the initialised globals has
    [set_value] in [10, 5999] and [timer_value] at most 5999, and from such
    a state a [process_buttons] pass completes in such a state.  In
    [STATE_SET] the increment replaces [set_value] by [set_value + 10], or
    by 10 when that exceeds 5999, and copies the result into
    [timer_value], also when it comes from a press of the Set button.
    From 10, 598 presses reach 5990, the 599th wraps to 10, the 600th gives
    20, and the ranges hold after any number of presses. *)
Theorem ranges_preserved :
  (forall m : machine, reachable m -> in_range m)
  /\ (forall m : machine,
         reachable m ->
         exists m', process_buttons m = Ok m' /\ reachable m' /\ in_range m')
  /\ (forall m : machine,
         state m = STATE_SET ->
         0 <= set_value m < 2 ^ 32 - 10 ->
         (set_value m + 10 <= 5999 -> set_value (on_set m) = set_value m + 10)
         /\ (5999 < set_value m + 10 -> set_value (on_set m) = 10)
         /\ timer_value (on_set m) = set_value (on_set m)
         /\ state (on_set m) = STATE_SET)
  /\ (forall m : machine,
         state m = STATE_SET ->
         edge BTN_SET Ref_btn_set_prev m = true ->
         exists m',
           if_button BTN_SET Ref_btn_set_prev on_set m = Ok m'
           /\ set_value m' = bump (set_value m)
           /\ timer_value m' = set_value m')
  /\ (forall m : machine,
         state m = STATE_SET ->
         set_value m = 10 ->
         set_value (Nat.iter 598 on_set m) = 5990
         /\ set_value (Nat.iter 599 on_set m) = 10
         /\ set_value (Nat.iter 600 on_set m) = 20
         /\ forall k : nat, in_range (Nat.iter (S k) on_set m)).
Proof.
  split; [exact reachable_in_range|]. split; [|split; [|split]].
  - intros m R. destruct (process_buttons_reachable m R) as (m' & E & R').
    exists m'. split; [exact E|]. split; [exact R'|].
    apply reachable_in_range, R'.
  - intros m Hs Hv. destruct (on_set_in_set m Hs) as (Es & Ev & Et).
    destruct (bump_spec (set_value m) Hv) as [Hlo Hhi].
    rewrite Ev, Et, Es. repeat split; assumption.
  - intros m Hs He. rewrite if_button_closed, He. eexists.
    split; [reflexivity|].
    match goal with |- context [on_set ?x] => set (m1 := x) end.
    assert (Hs1 : state m1 = STATE_SET) by exact Hs.
    destruct (on_set_in_set m1 Hs1) as (_ & -> & ->). split; reflexivity.
  - intros m Hs Hv.
    destruct (on_set_iter m 598 Hs) as (_ & -> & _).
    destruct (on_set_iter m 599 Hs) as (_ & -> & _).
    destruct (on_set_iter m 600 Hs) as (_ & -> & _).
    rewrite Hv.
    split; [vm_compute; reflexivity|].
    split; [vm_compute; reflexivity|].
    split; [vm_compute; reflexivity|].
    intros k. unfold in_range.
    destruct (on_set_iter m (S k) Hs) as (_ & Ev & Et).
    rewrite Et, Ev, Hv by discriminate.
    assert (R : forall j, 10 <= Nat.iter j bump 10 <= 5999).
    { induction j as [|j IHj]; [cbn; lia|]. rewrite Nat.iter_succ.
      apply bump_range, IHj. }
    pose proof (R (S k)). lia.
Qed.

Lemma ranges_preserved_witness :
  in_range (timer_update
              (set_timer_value (set_value (boot power_on released))
                               (boot power_on released)))
  /\ (exists m',
         process_buttons (boot power_on released) = Ok m'
         /\ reachable m' /\ in_range m')
  /\ set_value (on_set (boot power_on released)) = 60 + 10
  /\ (exists m',
         if_button BTN_SET Ref_btn_set_prev on_set
                   (drive BTN_SET GPIO_LOW (boot power_on released)) = Ok m'
         /\ set_value m' = bump 60
         /\ timer_value m' = set_value m')
  /\ set_value (Nat.iter 600 on_set (set_set_value 10 (boot power_on released)))
     = 20.
Proof.
  destruct ranges_preserved as (Hreach & Hpass & Hstep & Hpress & Hmany).
  split; [|split; [|split; [|split]]].
  - apply Hreach. apply reach_update, reach_arm, reach_boot.
  - apply Hpass. apply reach_boot.
  - apply (Hstep (boot power_on released)); cbn; try reflexivity; lia.
  - apply (Hpress (drive BTN_SET GPIO_LOW (boot power_on released)));
      reflexivity.
  - apply (Hmany (set_set_value 10 (boot power_on released))); reflexivity.
Defined.

(* ================================================================== *)
(** ** Pins *)

Lemma deref_assign (p : port_ref) (r : LPC_GPIO_TypeDef) (g : bank) :
  deref p (assign p r g) = r.
Proof. destruct p; reflexivity. Qed.

Lemma pin_mask_pow2 (pin : Z) :
  exists k, 0 <= k < 32 /\ get_pin_mask pin = 2 ^ k.
Proof.
  unfold get_pin_mask. exists (Z.land pin 31).
  change 31 with (Z.ones 5). rewrite Z.land_ones by lia.
  pose proof (Z.mod_pos_bound pin (2 ^ 5) ltac:(lia)) as B.
  change (2 ^ 5) with 32 in *. split; [lia|].
  apply Z.shiftl_1_l.
Qed.

Lemma land_lor_same (x mask : Z) : Z.land (Z.lor x mask) mask = mask.
Proof.
  apply Z.bits_inj'. intros n _.
  rewrite Z.land_spec, Z.lor_spec.
  destruct (Z.testbit x n), (Z.testbit mask n); reflexivity.
Qed.

Lemma land_ldiff_same (x mask : Z) : Z.land (Z.ldiff x mask) mask = 0.
Proof.
  apply Z.bits_inj'. intros n Hn.
  rewrite Z.land_spec, Z.ldiff_spec, Z.bits_0.
  destruct (Z.testbit x n), (Z.testbit mask n); reflexivity.
Qed.

(** A pin reads back the level last written to it. *)
Lemma gpio_read_write (pin value : Z) (g : bank) :
  gpio_read pin (gpio_write pin value g)
  = if value =? GPIO_HIGH then GPIO_HIGH else GPIO_LOW.
Proof.
  unfold gpio_read, gpio_write.
  destruct (pin_mask_pow2 pin) as (k & Hk & ->).
  destruct (value =? GPIO_HIGH); rewrite deref_assign; cbn [FIOPIN store_FIOSET store_FIOCLR].
  - rewrite land_lor_same.
    destruct (Z.eqb_spec (2 ^ k) 0) as [E|_]; [|reflexivity].
    pose proof (Z.pow_pos_nonneg 2 k ltac:(lia) ltac:(lia)). lia.
  - rewrite land_ldiff_same. reflexivity.
Qed.

(* ================================================================== *)
(** ** Debouncer *)

Lemma gpio_read_level (pin : Z) (g : bank) :
  gpio_read pin g = GPIO_LOW \/ gpio_read pin g = GPIO_HIGH.
Proof.
  unfold gpio_read.
  destruct (Z.land (FIOPIN (deref (get_gpio_port pin) g)) (get_pin_mask pin) =? 0);
    auto.
Qed.

Section Polls.

Variables (pin : Z) (p : prev_ref).

(** One poll with the pin at [level]. *)
Lemma poll_one (level : Z) (m : machine) :
  exists m1,
    read_button pin p (drive pin level m)
    = Ok (if negb (level =? GPIO_HIGH) && (load p m =? 0) then 1 else 0, m1)
    /\ load p m1 = if level =? GPIO_HIGH then 0 else 1.
Proof.
  rewrite read_button_closed. unfold edge.
  assert (L : load p (drive pin level m) = load p m) by (destruct p; reflexivity).
  assert (G : gpio_read pin (gpio (drive pin level m))
              = if level =? GPIO_HIGH then GPIO_HIGH else GPIO_LOW).
  { unfold drive. cbn [gpio set_gpio]. apply gpio_read_write. }
  rewrite L, G.
  destruct (level =? GPIO_HIGH); eexists; (split; [reflexivity|]);
    apply store_fields.
Qed.

Lemma poll_each_app (l1 l2 : list Z) :
  forall m,
    poll_each pin p (l1 ++ l2) m
    = ('(r1, m1) <- poll_each pin p l1 m ;;
       '(r2, m2) <- poll_each pin p l2 m1 ;;
       Ok (r1 ++ r2, m2)).
Proof.
  induction l1 as [|l l1 IH]; intros m.
  - cbn. destruct (poll_each pin p l2 m) as [[r2 m2]|]; reflexivity.
  - cbn [app poll_each].
    destruct (read_button pin p (drive pin l m)) as [[pr m1]|]; [|reflexivity].
    cbn [bind]. rewrite IH.
    destruct (poll_each pin p l1 m1) as [[r1 m1']|]; [|reflexivity].
    cbn [bind].
    destruct (poll_each pin p l2 m1') as [[r2 m2]|]; reflexivity.
Qed.

(** Polls of a button that stays pressed after a poll that saw it
    pressed. *)
Lemma poll_held (n : nat) :
  forall m,
    load p m = 1 ->
    exists m',
      poll_each pin p (repeat GPIO_LOW n) m = Ok (repeat 0 n, m')
      /\ load p m' = 1.
Proof.
  induction n as [|n IH]; intros m Hp.
  - exists m. split; [reflexivity|exact Hp].
  - cbn [repeat poll_each].
    destruct (poll_one GPIO_LOW m) as (m1 & -> & Hp1).
    rewrite Hp. cbn [bind]. cbn in Hp1.
    destruct (IH m1 Hp1) as (m' & -> & Hp'). exists m'. split; [reflexivity|exact Hp'].
Qed.

(** Polls of a press that starts after a poll that saw the button up. *)
Lemma poll_press (n : nat) (m : machine) :
  load p m = 0 ->
  exists m',
    poll_each pin p (repeat GPIO_LOW (S n)) m = Ok (1 :: repeat 0 n, m')
    /\ load p m' = 1.
Proof.
  intros Hp. cbn [repeat poll_each].
  destruct (poll_one GPIO_LOW m) as (m1 & -> & Hp1).
  rewrite Hp. cbn [bind]. cbn in Hp1.
  destruct (poll_held n m1 Hp1) as (m' & -> & Hp').
  exists m'. split; [reflexivity|exact Hp'].
Qed.

(** Polls of a button that is up. *)
Lemma poll_up (n : nat) :
  forall m,
    exists m',
      poll_each pin p (repeat GPIO_HIGH (S n)) m = Ok (repeat 0 (S n), m')
      /\ load p m' = 0.
Proof.
  induction n as [|n IH]; intros m.
  - cbn [repeat poll_each].
    destruct (poll_one GPIO_HIGH m) as (m1 & -> & Hp1).
    cbn in Hp1. cbn. exists m1. split; [reflexivity|exact Hp1].
  - change (repeat GPIO_HIGH (S (S n))) with (GPIO_HIGH :: repeat GPIO_HIGH (S n)).
    cbn [poll_each].
    destruct (poll_one GPIO_HIGH m) as (m1 & -> & _).
    cbn [bind]. destruct (IH m1) as (m' & -> & Hp').
    exists m'. split; [reflexivity|exact Hp'].
Qed.

End Polls.

(** C6: a poll returns 1 exactly when the pin reads low (pressed) and the
    stored previous sample is 0 (not pressed), and 0 otherwise; it always
    stores the current sample, and it spends the 50 ms settle delay exactly
    when it returns 1.  Over consecutive polls of a button that is held, the
    first poll returns 1 and all later ones 0; once the button has been
    seen up, the next press is reported again, once. *)
Theorem read_button_reports_press_once :
  (forall (pin : Z) (p : prev_ref) (m : machine),
      exists pressed m',
        read_button pin p m = Ok (pressed, m')
        /\ (pressed = 1 \/ pressed = 0)
        /\ (pressed = 1 <->
            gpio_read pin (gpio m) = GPIO_LOW /\ load p m = 0)
        /\ load p m' = c_not (gpio_read pin (gpio m))
        /\ clk m' = if pressed =? 1 then ticks 50 (clk m) else clk m)
  /\ (forall (pin : Z) (p : prev_ref) (n : nat) (m : machine),
         load p m = 0 ->
         exists m',
           poll_each pin p (repeat GPIO_LOW (S n)) m
           = Ok (1 :: repeat 0 n, m'))
  /\ (forall (pin : Z) (p : prev_ref) (n k j : nat) (m : machine),
         load p m = 0 ->
         exists m',
           poll_each pin p
             (repeat GPIO_LOW (S n) ++ repeat GPIO_HIGH (S k)
              ++ repeat GPIO_LOW (S j)) m
           = Ok ((1 :: repeat 0 n) ++ repeat 0 (S k) ++ (1 :: repeat 0 j),
                 m')).
Proof.
  split; [|split].
  - intros pin p m. rewrite read_button_closed. unfold edge.
    do 2 eexists. split; [reflexivity|].
    destruct (store_fields p (c_not (gpio_read pin (gpio m)))
                (if (c_not (gpio_read pin (gpio m)) =? 1) && (load p m =? 0)
                 then set_clk (ticks 50 (clk m)) m else m))
      as (_ & _ & _ & _ & -> & _ & ->).
    unfold c_not.
    destruct (gpio_read_level pin (gpio m)) as [->| ->];
      destruct (Z.eqb_spec (load p m) 0) as [E|E]; cbn;
      repeat split; auto; try discriminate; try tauto;
      intros [? ?]; try discriminate; contradiction.
  - intros pin p n m Hp.
    destruct (poll_press pin p n m Hp) as (m' & E & _). exists m'. exact E.
  - intros pin p n k j m Hp. rewrite poll_each_app.
    destruct (poll_press pin p n m Hp) as (m1 & -> & _). cbn [bind].
    rewrite poll_each_app.
    destruct (poll_up pin p k m1) as (m2 & -> & Hp2). cbn [bind].
    destruct (poll_press pin p j m2 Hp2) as (m3 & -> & _). cbn [bind].
    exists m3. reflexivity.
Qed.

Lemma read_button_reports_press_once_witness :
  (exists m',
      poll_each BTN_START Ref_btn_start_prev (repeat GPIO_LOW 3)
                (boot power_on released)
      = Ok ([1; 0; 0], m'))
  /\ (exists m',
         poll_each BTN_START Ref_btn_start_prev
           (repeat GPIO_LOW 2 ++ repeat GPIO_HIGH 1 ++ repeat GPIO_LOW 2)
           (boot power_on released)
         = Ok ([1; 0] ++ [0] ++ [1; 0], m')).
Proof.
  destruct read_button_reports_press_once as (_ & Hheld & Hagain).
  split.
  - apply (Hheld BTN_START Ref_btn_start_prev 2%nat (boot power_on released)).
    reflexivity.
  - apply (Hagain BTN_START Ref_btn_start_prev 1%nat 0%nat 1%nat
                  (boot power_on released)).
    reflexivity.
Defined.

(* ================================================================== *)
(** ** Display multiplexing *)

(** Case analysis on a digit position known to lie in [0, 3]. *)
Ltac digit_cases c :=
  let C := fresh "C" in
  assert (C : c = 0 \/ c = 1 \/ c = 2 \/ c = 3) by lia;
  destruct C as [C|[C|[C|C]]]; rewrite C in *; clear C.

(** Writes to pins of port 0 leave port 2 as it is. *)
Lemma port0_writes_frame (ws : list (Z * Z)) :
  forall g,
    Forall (fun w => get_gpio_port (fst w) = Port0) ws ->
    LPC_GPIO2 (gpio_writes ws g) = LPC_GPIO2 g.
Proof.
  unfold gpio_writes.
  induction ws as [|w ws IH]; intros g Hws; [reflexivity|].
  inversion Hws as [|? ? Hw Hrest]; subst. cbn [fold_left].
  rewrite IH by exact Hrest.
  unfold gpio_write. rewrite Hw.
  destruct (snd w =? GPIO_HIGH); reflexivity.
Qed.

Lemma land_pow2_testbit (x i : Z) :
  0 <= i -> (Z.land x (2 ^ i) =? 0) = negb (Z.testbit x i).
Proof.
  intros Hi. destruct (Z.testbit x i) eqn:B; cbn [negb].
  - apply Z.eqb_neq. intros E.
    assert (T : Z.testbit (Z.land x (2 ^ i)) i = true).
    { rewrite Z.land_spec, B, Z.pow2_bits_true by exact Hi. reflexivity. }
    rewrite E, Z.bits_0 in T. discriminate.
  - apply Z.eqb_eq. apply Z.bits_inj'. intros n Hn.
    rewrite Z.land_spec, Z.bits_0, Z.pow2_bits_eqb by exact Hi.
    destruct (Z.eqb_spec i n) as [<-|_]; [rewrite B; reflexivity|].
    apply Bool.andb_false_r.
Qed.

(** The enabled positions are the low four bits of port 2. *)
Lemma enabled_digits_bits (g : bank) :
  enabled_digits g
  = filter (Z.testbit (FIOPIN (LPC_GPIO2 g))) [0; 1; 2; 3].
Proof.
  unfold enabled_digits. apply filter_ext_in. intros i Hi.
  assert (E : gpio_read (at_index digit_pins i) g
              = if Z.land (FIOPIN (LPC_GPIO2 g)) (2 ^ i) =? 0
                then GPIO_LOW else GPIO_HIGH).
  { destruct Hi as [<-|[<-|[<-|[<-|[]]]]]; reflexivity. }
  rewrite E, land_pow2_testbit
    by (destruct Hi as [<-|[<-|[<-|[<-|[]]]]]; lia).
  destruct (Z.testbit (FIOPIN (LPC_GPIO2 g)) i); reflexivity.
Qed.

(** All four enable lines low, then writes to port 0, then one enable line
    high: that line alone ends up high. *)
Lemma one_digit_enabled (pos : Z) (segs : list (Z * Z)) (g : bank) :
  0 <= pos <= 3 ->
  Forall (fun w => get_gpio_port (fst w) = Port0) segs ->
  enabled_digits
    (gpio_writes (map (fun i => (at_index digit_pins i, GPIO_LOW)) [0; 1; 2; 3]
                  ++ segs ++ [(at_index digit_pins pos, GPIO_HIGH)]) g)
  = [pos].
Proof.
  intros Hpos Hsegs. rewrite enabled_digits_bits.
  unfold gpio_writes. rewrite !fold_left_app. cbn [fold_left fst snd].
  set (g1 := fold_left _ (map _ _) g).
  assert (E1 : FIOPIN (LPC_GPIO2 g1)
               = Z.ldiff (Z.ldiff (Z.ldiff (Z.ldiff (FIOPIN (LPC_GPIO2 g)) 1) 2) 4) 8)
    by reflexivity.
  set (g2 := fold_left _ segs g1).
  assert (E2 : LPC_GPIO2 g2 = LPC_GPIO2 g1)
    by (apply (port0_writes_frame segs g1 Hsegs)).
  assert (E3 : FIOPIN (LPC_GPIO2 (gpio_write (at_index digit_pins pos) GPIO_HIGH g2))
               = Z.lor (FIOPIN (LPC_GPIO2 g2)) (2 ^ pos)).
  { clear - Hpos. digit_cases pos; reflexivity. }
  rewrite E3, E2, E1. clear - Hpos.
  generalize (FIOPIN (LPC_GPIO2 g)). intros x.
  digit_cases pos; cbn [filter];
    rewrite !Z.lor_spec, !Z.ldiff_spec;
    generalize (Z.testbit x 0) (Z.testbit x 1) (Z.testbit x 2) (Z.testbit x 3);
    intros [] [] [] []; reflexivity.
Qed.

Lemma display_digit_writes_shape (pos value dp : Z) :
  exists segs,
    display_digit_writes pos value dp
    = map (fun pin => (pin, GPIO_LOW)) digit_pins
      ++ segs ++ [(at_index digit_pins pos, GPIO_HIGH)]
    /\ Forall (fun w => get_gpio_port (fst w) = Port0) segs
    /\ Forall (fun w => ~ In (fst w) digit_pins) segs.
Proof.
  exists ((if value <=? 9 then write_segment (at_index seg_patterns value)
           else write_segment 0) ++ [(SEG_DP, dp)]).
  split; [|split].
  - unfold display_digit_writes. rewrite <- app_assoc. reflexivity.
  - destruct (value <=? 9); unfold write_segment; cbn [map app];
      repeat constructor.
  - destruct (value <=? 9); unfold write_segment; cbn [map app];
      repeat (constructor;
              [cbn; intros [H|[H|[H|[H|[]]]]]; discriminate H|]);
      constructor.
Qed.

Lemma display_number_one (number : Z) (m : machine) :
  0 <= current_digit m <= 3 ->
  exists segs,
    display_number_writes number (current_digit m)
    = map (fun pin => (pin, GPIO_LOW)) digit_pins
      ++ segs ++ [(at_index digit_pins (current_digit m), GPIO_HIGH)]
    /\ Forall (fun w => ~ In (fst w) digit_pins) segs
    /\ enabled_digits (gpio (display_number number m)) = [current_digit m]
    /\ current_digit (display_number number m) = (current_digit m + 1) mod 4.
Proof.
  intros Hc.
  assert (S : exists value dp,
             display_number_writes number (current_digit m)
             = display_digit_writes (current_digit m) value dp).
  { digit_cases (current_digit m); do 2 eexists; reflexivity. }
  destruct S as (value & dp & E).
  destruct (display_digit_writes_shape (current_digit m) value dp)
    as (segs & Eshape & Hport & Hpins).
  exists segs. rewrite E. split; [exact Eshape|]. split; [exact Hpins|].
  split.
  - change (gpio (display_number number m))
      with (gpio_writes (display_number_writes number (current_digit m)) (gpio m)).
    rewrite E, Eshape. apply one_digit_enabled; assumption.
  - change (current_digit (display_number number m))
      with (wrap8 ((current_digit m + 1) mod 4)).
    unfold wrap8. apply Z.mod_small.
    pose proof (Z.mod_pos_bound (current_digit m + 1) 4 ltac:(lia)). lia.
Qed.

Lemma reachable_digit (m : machine) :
  reachable m -> 0 <= current_digit m <= 3.
Proof.
  induction 1 as [c g|m _ IH|pin p body m m' _ IH Hb E|m _ IH|n m _ IH
                 |c g m _ IH].
  - cbn. lia.
  - exact IH.
  - rewrite if_button_closed in E. apply Ok_inj in E. subst m'.
    assert (F : forall b x, In b [on_countdown; on_set; on_start; on_reset] ->
                            current_digit (b x) = current_digit x).
    { intros b x [<-|[<-|[<-|[<-|[]]]]].
      - unfold on_countdown. destruct (state_eqb (state x) STATE_SET); reflexivity.
      - unfold on_set. destruct (state_eqb (state x) STATE_SET); [|reflexivity].
        cbn. destruct (add32 (set_value x) 10 >? 5999); reflexivity.
      - unfold on_start. destruct (state x); reflexivity.
      - reflexivity. }
    destruct (edge pin p m); [rewrite (F body _ Hb)|]; destruct p; exact IH.
  - unfold timer_update.
    destruct (state_eqb (state m) STATE_RUNNING
              && (sub32 (millis (clk m)) (last_tick m) >=? 1000));
      [|exact IH].
    cbn. destruct (timer_value m >? 0); exact IH.
  - change (current_digit (display_number n m))
      with (wrap8 ((current_digit m + 1) mod 4)).
    unfold wrap8.
    pose proof (Z.mod_pos_bound (current_digit m + 1) 4 ltac:(lia)).
    rewrite Z.mod_small; lia.
  - exact IH.
Qed.

(** C9: in every reachable state the digit position is one of 0 to 3.
    One [display_number] call whose digit position is [c] writes
    low to the four digit-enable pins first, then only to pins that are no
    enable pin, and last high to the enable pin of position [c]; when it
    returns, that line alone is high, and the position has moved to
    [(c + 1) mod 4].  Four consecutive calls enable the positions
    [c, c+1, c+2, c+3] modulo 4, each once, and are back at [c]; from the
    initial position they enable 0, 1, 2, 3. *)
Theorem display_number_multiplexes :
  (forall m : machine, reachable m -> 0 <= current_digit m <= 3)
  /\ (forall (number : Z) (m : machine),
      0 <= current_digit m <= 3 ->
      exists segs,
        display_number_writes number (current_digit m)
        = map (fun pin => (pin, GPIO_LOW)) digit_pins
          ++ segs ++ [(at_index digit_pins (current_digit m), GPIO_HIGH)]
        /\ Forall (fun w => ~ In (fst w) digit_pins) segs
        /\ enabled_digits (gpio (display_number number m)) = [current_digit m]
        /\ current_digit (display_number number m)
           = (current_digit m + 1) mod 4)
  /\ (forall (n1 n2 n3 n4 : Z) (m : machine),
         0 <= current_digit m <= 3 ->
         fst (display_each [n1; n2; n3; n4] m)
         = [[current_digit m]; [(current_digit m + 1) mod 4];
            [(current_digit m + 2) mod 4]; [(current_digit m + 3) mod 4]]
         /\ current_digit (snd (display_each [n1; n2; n3; n4] m))
            = current_digit m)
  /\ (forall (n1 n2 n3 n4 : Z) (c : clock) (g : bank),
         fst (display_each [n1; n2; n3; n4] (boot c g))
         = [[0]; [1]; [2]; [3]]).
Proof.
  assert (four : forall (n1 n2 n3 n4 : Z) (m : machine),
             0 <= current_digit m <= 3 ->
             fst (display_each [n1; n2; n3; n4] m)
             = [[current_digit m]; [(current_digit m + 1) mod 4];
                [(current_digit m + 2) mod 4]; [(current_digit m + 3) mod 4]]
             /\ current_digit (snd (display_each [n1; n2; n3; n4] m))
                = current_digit m).
  { intros n1 n2 n3 n4 m Hc. cbn [display_each fst snd].
    set (m1 := display_number n1 m).
    set (m2 := display_number n2 m1).
    set (m3 := display_number n3 m2).
    set (m4 := display_number n4 m3).
    destruct (display_number_one n1 m Hc) as (_ & _ & _ & E1 & C1).
    fold m1 in E1, C1.
    assert (H1 : 0 <= current_digit m1 <= 3)
      by (rewrite C1; pose proof (Z.mod_pos_bound (current_digit m + 1) 4); lia).
    destruct (display_number_one n2 m1 H1) as (_ & _ & _ & E2 & C2).
    fold m2 in E2, C2.
    assert (H2 : 0 <= current_digit m2 <= 3)
      by (rewrite C2; pose proof (Z.mod_pos_bound (current_digit m1 + 1) 4); lia).
    destruct (display_number_one n3 m2 H2) as (_ & _ & _ & E3 & C3).
    fold m3 in E3, C3.
    assert (H3 : 0 <= current_digit m3 <= 3)
      by (rewrite C3; pose proof (Z.mod_pos_bound (current_digit m2 + 1) 4); lia).
    destruct (display_number_one n4 m3 H3) as (_ & _ & _ & E4 & C4).
    fold m4 in E4, C4.
    rewrite E1, E2, E3, E4, C4, C3, C2, C1.
    clear - Hc. digit_cases (current_digit m); split; reflexivity. }
  split; [exact reachable_digit|].
  split; [exact display_number_one|]. split; [exact four|].
  intros n1 n2 n3 n4 c g.
  exact (proj1 (four n1 n2 n3 n4 (boot c g) ltac:(cbn; lia))).
Qed.

Lemma display_number_multiplexes_witness :
  0 <= current_digit (display_number 205 (boot power_on released)) <= 3
  /\ enabled_digits (gpio (display_number 205 (boot power_on released))) = [0]
  /\ fst (display_each [205; 205; 205; 205]
                       (display_number 205 (boot power_on released)))
     = [[1]; [2]; [3]; [0]].
Proof.
  destruct display_number_multiplexes as (Hpos & Hone & Hfour & _).
  split; [|split].
  - apply Hpos. apply reach_display, reach_boot.
  - destruct (Hone 205 (boot power_on released)) as (_ & _ & _ & E & _).
    + cbn. lia.
    + exact E.
  - apply (Hfour 205 205 205 205 (display_number 205 (boot power_on released))).
    cbn. lia.
Defined.

(* ================================================================== *)
(** ** Further properties of the clock *)

Lemma land_ones24 (x : Z) : Z.land x 16777215 = x mod 2 ^ 24.
Proof. change 16777215 with (Z.ones 24). apply Z.land_ones. lia. Qed.

Lemma systick_init_ok (f : Z) (c c1 : clock) :
  systick_init f c = Ok c1 ->
  f <> 0
  /\ c1 = mkClock (mkSYSTICK 7 (Z.land (sub32 (f / 1000) 1) 16777215) 0
                             (CALIB (SYSTICK c)))
                  0 (1000000 / f).
Proof.
  unfold systick_init, udiv32. destruct (Z.eqb_spec f 0) as [->|Hf].
  - discriminate.
  - intros E. apply Ok_inj in E. split; [exact Hf|]. symmetry. exact E.
Qed.

(** X1: for a frequency of at least 1 kHz the 24-bit mask of
    [systick_init] cuts nothing off: the reload value is [f / 1000 - 1], so
    that for a multiple of 1000 one reload period is exactly a thousandth of
    [f] cycles.  Below 1 kHz the subtraction wraps and the reload value is
    the largest one, [0xFFFFFF]. *)
Theorem systick_init_reload (f : Z) (c c1 : clock) :
  0 < f < 2 ^ 32 ->
  systick_init f c = Ok c1 ->
  (1000 <= f -> LOAD (SYSTICK c1) = f / 1000 - 1)
  /\ (1000 <= f -> f mod 1000 = 0 -> (LOAD (SYSTICK c1) + 1) * 1000 = f)
  /\ (f < 1000 -> LOAD (SYSTICK c1) = 16777215)
  /\ VAL (SYSTICK c1) = 0
  /\ systick_counter c1 = 0.
Proof.
  intros Hf E. apply systick_init_ok in E. destruct E as [_ ->].
  cbn [SYSTICK LOAD VAL systick_counter].
  assert (big : 1000 <= f ->
                Z.land (sub32 (f / 1000) 1) 16777215 = f / 1000 - 1).
  { intros H1. assert (1 <= f / 1000) by (apply Z.div_le_lower_bound; lia).
    assert (f / 1000 < 4294968) by (apply Z.div_lt_upper_bound; lia).
    unfold sub32. rewrite wrap32_small by (unfold is_u32; lia).
    rewrite land_ones24. apply Z.mod_small. lia. }
  split; [exact big|]. split; [|split; [|split; reflexivity]].
  - intros H1 Hm. rewrite big by exact H1.
    pose proof (Z.div_mod f 1000 ltac:(lia)). lia.
  - intros Hs. rewrite Z.div_small by lia. reflexivity.
Qed.

Lemma systick_init_reload_witness :
  LOAD (SYSTICK (mkClock (mkSYSTICK 7 11999 0 0) 0 0)) = 12000000 / 1000 - 1.
Proof.
  apply (systick_init_reload 12000000 power_on
           (mkClock (mkSYSTICK 7 11999 0 0) 0 0));
    try reflexivity; lia.
Defined.

(** X2: once [systick_init] has returned, [micros] never divides by zero,
    whatever number of tick interrupts has been serviced since and whatever
    the down-counter shows; its result is a 32-bit value. *)
Theorem micros_defined_after_init (f : Z) (c c1 : clock) (n : N) (v : Z) :
  systick_init f c = Ok c1 ->
  exists us, micros (counted_to v (ticks n c1)) = Ok us /\ is_u32 us.
Proof.
  intros E. apply systick_init_ok in E. destruct E as [_ ->].
  eexists. split.
  - apply micros_value. unfold counted_to. cbn [SYSTICK LOAD].
    destruct (ticks_regs n
                (mkClock (mkSYSTICK 7 (Z.land (sub32 (f / 1000) 1) 16777215) 0
                                    (CALIB (SYSTICK c))) 0 (1000000 / f)))
      as [-> _].
    cbn [LOAD]. rewrite land_ones24.
    apply Z.mod_pos_bound. lia.
  - apply wrap32_range.
Qed.

Lemma micros_defined_after_init_witness :
  exists us,
    micros (counted_to 70399
              (ticks 5 (mkClock (mkSYSTICK 7 99999 0 0) 0 0))) = Ok us
    /\ is_u32 us.
Proof.
  apply (micros_defined_after_init 100000000 power_on). reflexivity.
Defined.

Lemma delay_ms_loop_exit (irqs : list N) (start ms : Z) (c : clock) :
  ms <= sub32 (systick_counter c) start ->
  delay_ms_loop irqs start ms c = Ok (c, irqs).
Proof.
  intros H. destruct irqs; cbn [delay_ms_loop];
    destruct (Z.ltb_spec (sub32 (systick_counter c) start) ms); try lia;
    reflexivity.
Qed.

Lemma delay_ms_loop_bounded (irqs : list N) :
  forall (K e : N) (ms : Z) (c0 : clock),
    Forall (fun k => (k <= K)%N) irqs ->
    Z.of_N e < ms ->
    ms + Z.of_N K <= 2 ^ 32 ->
    ms <= Z.of_N e + Z.of_N (serviced irqs) ->
    exists used rest,
      delay_ms_loop irqs (systick_counter c0) ms (ticks e c0)
      = Ok (ticks (e + serviced used) c0, rest)
      /\ irqs = used ++ rest
      /\ ms <= Z.of_N (e + serviced used) < ms + Z.of_N K.
Proof.
  induction irqs as [|k irqs IH]; intros K e ms c0 Hall He HK Hsum.
  - cbn in Hsum. lia.
  - inversion Hall as [|? ? Hk Hrest]; subst.
    cbn [delay_ms_loop]. rewrite elapsed_after.
    rewrite wrap32_small by (unfold is_u32; lia).
    destruct (Z.ltb_spec (Z.of_N e) ms) as [_|]; [|lia].
    rewrite <- ticks_add.
    destruct (Z.lt_ge_cases (Z.of_N (e + k)) ms) as [Hlt|Hge].
    + destruct (IH K (e + k)%N ms c0 Hrest Hlt HK) as (used & rest & E & Hs & Hb).
      { cbn [serviced fold_right] in Hsum. fold (serviced irqs) in Hsum. lia. }
      exists (k :: used), rest. cbn [serviced fold_right]. fold (serviced used).
      rewrite N.add_assoc. split; [exact E|]. split; [|exact Hb].
      cbn [app]. f_equal. exact Hs.
    + exists [k], irqs. cbn [serviced fold_right]. rewrite N.add_0_r.
      split; [|split; [reflexivity|lia]].
      apply delay_ms_loop_exit. rewrite elapsed_after.
      rewrite wrap32_small by (unfold is_u32; lia). exact Hge.
Qed.

Lemma delay_ms_in_zero (irqs : list N) (ms : Z) (c : clock) :
  ms <= 0 -> delay_ms_in irqs ms c = Ok (c, irqs).
Proof.
  intros Hms. unfold delay_ms_in. apply delay_ms_loop_exit.
  pose proof (wrap32_range (systick_counter c - systick_counter c)) as R.
  unfold sub32, is_u32 in *. lia.
Qed.

(** X3: [delay_ms] of 0 returns at once, without waiting for any
    interrupt.  For a positive [ms], if at most [K] interrupts are serviced
    between two polls (with [ms + K] within 32 bits) and at least [ms] come
    in all, [delay_ms] returns, and it does so when between [ms] and
    [ms + K - 1] interrupts have passed: it overshoots by less than one poll
    interval. *)
Theorem delay_ms_overshoot_bounded :
  (forall (irqs : list N) (ms : Z) (c : clock),
      ms <= 0 -> delay_ms_in irqs ms c = Ok (c, irqs))
  /\ (forall (irqs : list N) (K : N) (ms : Z) (c : clock),
         0 < ms ->
         Forall (fun k => (k <= K)%N) irqs ->
         ms + Z.of_N K <= 2 ^ 32 ->
         ms <= Z.of_N (serviced irqs) ->
         exists used rest,
           delay_ms_in irqs ms c = Ok (ticks (serviced used) c, rest)
           /\ irqs = used ++ rest
           /\ ms <= Z.of_N (serviced used) < ms + Z.of_N K).
Proof.
  split; [exact delay_ms_in_zero|].
  - intros irqs K ms c Hms Hall HK Hsum. unfold delay_ms_in.
    destruct (delay_ms_loop_bounded irqs K 0%N ms c Hall) as (used & rest & E & Hs & Hb);
      try assumption; try (cbn; lia).
    exists used, rest. rewrite N.add_0_l in E, Hb. auto.
Qed.

Lemma delay_ms_overshoot_bounded_witness :
  delay_ms_in [] 0 near_wrap = Ok (near_wrap, [])
  /\ exists used rest,
       delay_ms_in [2%N; 0%N; 3%N; 1%N; 3%N] 5 near_wrap
       = Ok (ticks (serviced used) near_wrap, rest)
       /\ [2%N; 0%N; 3%N; 1%N; 3%N] = used ++ rest
       /\ 5 <= Z.of_N (serviced used) < 5 + Z.of_N 3.
Proof.
  destruct delay_ms_overshoot_bounded as [Hzero Hpos].
  split.
  - apply Hzero. lia.
  - apply Hpos.
    + lia.
    + repeat constructor; discriminate.
    + vm_compute. discriminate.
    + vm_compute. discriminate.
Defined.

Lemma delay_ms_in_regs (irqs rest : list N) (ms : Z) (c c' : clock) :
  delay_ms_in irqs ms c = Ok (c', rest) ->
  SYSTICK c' = SYSTICK c /\ us_per_tick c' = us_per_tick c.
Proof.
  unfold delay_ms_in. intros E. apply delay_ms_loop_sound in E.
  destruct E as (used & _ & -> & _). apply ticks_regs.
Qed.

(** X4: for a whole number of milliseconds [delay_us] is [delay_ms] of
    that number and nothing else: it computes no tick requirement and reads
    the down-counter not once.  For any other duration it needs a non-zero
    [us_per_tick]: with [us_per_tick = 0] it does not return, and a
    division by zero in [delay_us] always has that cause. *)
Theorem delay_us_whole_milliseconds :
  (forall (irqs : list N) (vals : list Z) (us : Z) (c : clock),
      0 <= us -> us mod 1000 = 0 ->
      delay_us_in irqs vals us c
      = ('(c', _) <- delay_ms_in irqs (us / 1000) c ;;
         Ok (mkReport c' None 0)))
  /\ (forall (irqs : list N) (vals : list Z) (us : Z) (c : clock)
             (r : us_report),
         0 <= us -> us mod 1000 <> 0 -> us_per_tick c = 0 ->
         delay_us_in irqs vals us c <> Ok r)
  /\ (forall (irqs : list N) (vals : list Z) (us : Z) (c : clock),
         0 <= us ->
         delay_us_in irqs vals us c = Err DivideByZero ->
         us mod 1000 <> 0 /\ us_per_tick c = 0).
Proof.
  split; [|split].
  - intros irqs vals us c Hus Hm. unfold delay_us_in.
    destruct (Z.geb_spec us 1000) as [Hge|Hlt].
    + cbv zeta. destruct (delay_ms_in irqs (us / 1000) c) as [[c' rest]|]; [|reflexivity].
      cbn [bind]. rewrite Hm. reflexivity.
    + assert (us = 0) by (rewrite Z.mod_small in Hm; lia). subst us.
      cbn. rewrite (delay_ms_in_zero irqs 0 c) by lia.
      reflexivity.
  - intros irqs vals us c r Hus Hm Hz. unfold delay_us_in.
    destruct (Z.geb_spec us 1000) as [Hge|Hlt].
    + cbv zeta.
      destruct (delay_ms_in irqs (us / 1000) c) as [[c' rest]|] eqn:E;
        [|discriminate].
      cbn [bind]. destruct (Z.eqb_spec (us mod 1000) 0) as [|_]; [contradiction|].
      destruct (delay_ms_in_regs _ _ _ _ _ E) as [_ ->]. rewrite Hz.
      discriminate.
    + cbn [bind]. rewrite Z.mod_small in Hm by lia.
      destruct (Z.eqb_spec us 0) as [|_]; [contradiction|].
      rewrite Hz. discriminate.
  - intros irqs vals us c Hus. unfold delay_us_in.
    destruct (Z.geb_spec us 1000) as [Hge|Hlt].
    + cbv zeta.
      destruct (delay_ms_in irqs (us / 1000) c) as [[c' rest]|[]] eqn:E;
        try discriminate.
      * cbn [bind]. destruct (Z.eqb_spec (us mod 1000) 0) as [|Hne]; [discriminate|].
        destruct (delay_ms_in_regs _ _ _ _ _ E) as [_ ->].
        unfold udiv32. destruct (Z.eqb_spec (us_per_tick c) 0) as [Hz|_].
        -- intros _. split; assumption.
        -- cbn [bind].
           destruct (delay_us_loop vals (VAL (SYSTICK c')) (LOAD (SYSTICK c'))
                       (us mod 1000 / us_per_tick c) 0) as [n|[]] eqn:L;
             try discriminate.
           exfalso. revert L. generalize 0%nat.
           induction vals as [|v vals IHv]; intros k; cbn [delay_us_loop];
             [discriminate|].
           destruct (elapsed_ticks _ _ _ >=? _); [discriminate|apply IHv].
      * exfalso. unfold delay_ms_in in E. revert E.
        generalize (systick_counter c) at 1. generalize c.
        induction irqs as [|k irqs IHi]; intros c0 s; cbn [delay_ms_loop];
          destruct (sub32 (systick_counter c0) s <? us / 1000);
          try discriminate.
        apply IHi.
    + cbn [bind]. destruct (Z.eqb_spec us 0) as [|Hne]; [discriminate|].
      unfold udiv32. destruct (Z.eqb_spec (us_per_tick c) 0) as [Hz|_].
      * intros _. rewrite Z.mod_small by lia. split; assumption.
      * cbn [bind].
        destruct (delay_us_loop vals (VAL (SYSTICK c)) (LOAD (SYSTICK c))
                    (us / us_per_tick c) 0) as [n|[]] eqn:L;
          try discriminate.
        exfalso. revert L. generalize 0%nat.
        induction vals as [|v vals IHv]; intros k; cbn [delay_us_loop];
          [discriminate|].
        destruct (elapsed_ticks _ _ _ >=? _); [discriminate|apply IHv].
Qed.

Lemma delay_us_whole_milliseconds_witness :
  delay_us_in [1%N; 1%N] [] 2000 (mkClock (mkSYSTICK 7 11999 0 0) 0 0)
  = ('(c', _) <- delay_ms_in [1%N; 1%N] (2000 / 1000)
                   (mkClock (mkSYSTICK 7 11999 0 0) 0 0) ;;
     Ok (mkReport c' None 0))
  /\ delay_us_in [] [] 500 (mkClock (mkSYSTICK 7 11999 0 0) 0 0)
     <> Ok (mkReport (mkClock (mkSYSTICK 7 11999 0 0) 0 0) None 0)
  /\ (500 mod 1000 <> 0
      /\ us_per_tick (mkClock (mkSYSTICK 7 11999 0 0) 0 0) = 0).
Proof.
  destruct delay_us_whole_milliseconds as (Hwhole & Hstuck & Hcause).
  split; [|split].
  - apply Hwhole; [lia|reflexivity].
  - apply Hstuck; [lia|discriminate|reflexivity].
  - apply (Hcause [] [] 500 (mkClock (mkSYSTICK 7 11999 0 0) 0 0));
      [lia|reflexivity].
Defined.

Lemma down_counter_value (reload start t : Z) :
  0 <= start <= reload -> 0 <= t <= reload ->
  down_counter reload start t
  = if t <=? start then start - t else start - t + reload + 1.
Proof.
  intros Hs Ht. unfold down_counter.
  destruct (Z.leb_spec t start).
  - apply Z.mod_small. lia.
  - symmetry. apply Z.mod_unique with (q := -1); lia.
Qed.

Lemma elapsed_ticks_at (reload start t : Z) :
  0 <= start <= reload -> reload < 2 ^ 24 -> 0 <= t <= reload ->
  elapsed_ticks start reload (down_counter reload start t)
  = if t <=? start then t else t - 1.
Proof.
  intros Hs Hr Ht. rewrite down_counter_value by assumption.
  unfold elapsed_ticks, add32, sub32.
  destruct (Z.leb_spec t start).
  - destruct (Z.leb_spec (start - t) start); [|lia].
    rewrite wrap32_small by (unfold is_u32; lia). lia.
  - destruct (Z.leb_spec (start - t + reload + 1) start); [lia|].
    rewrite (wrap32_small (reload - _)) by (unfold is_u32; lia).
    rewrite wrap32_small by (unfold is_u32; lia). lia.
Qed.

(** X5: the elapsed-tick formula of [delay_us] against the down-counter.
    For a read taken [t] cycles after the start read, less than one reload
    period later, it yields [t] as long as the counter has not reloaded and
    [t - 1] once it has: it never counts more cycles than have passed. *)
Theorem elapsed_ticks_of_down_counter (reload start t : Z) :
  0 <= start <= reload -> reload < 2 ^ 24 -> 0 <= t <= reload ->
  elapsed_ticks start reload (down_counter reload start t)
  = (if t <=? start then t else t - 1)
  /\ t - 1 <= elapsed_ticks start reload (down_counter reload start t) <= t.
Proof.
  intros Hs Hr Ht.
  split; [apply elapsed_ticks_at; assumption|].
  rewrite elapsed_ticks_at by assumption.
  destruct (t <=? start); lia.
Qed.

Lemma elapsed_ticks_of_down_counter_witness :
  elapsed_ticks 300 11999 (down_counter 11999 300 100) = 100
  /\ elapsed_ticks 300 11999 (down_counter 11999 300 500) = 500 - 1.
Proof.
  split.
  - apply (elapsed_ticks_of_down_counter 11999 300 100); lia.
  - apply (elapsed_ticks_of_down_counter 11999 300 500); lia.
Defined.




(* ================================================================== *)
(** ** Further properties of the pins *)

Lemma forall_below (P : Z -> bool) (n : nat) :
  forallb P (map Z.of_nat (seq 0 n)) = true ->
  forall x, 0 <= x < Z.of_nat n -> P x = true.
Proof.
  intros H x Hx. rewrite forallb_forall in H. apply H.
  apply in_map_iff. exists (Z.to_nat x). split; [lia|].
  apply in_seq. lia.
Qed.

Lemma pin_number (pin : Z) :
  Z.shiftr pin 5 = pin / 32 /\ Z.land pin 31 = pin mod 32.
Proof.
  split.
  - apply Z.shiftr_div_pow2. lia.
  - change 31 with (Z.ones 5). apply Z.land_ones. lia.
Qed.

Lemma pin_mask (pin : Z) : get_pin_mask pin = 2 ^ (Z.land pin 31).
Proof. unfold get_pin_mask. apply Z.shiftl_1_l. Qed.

Lemma pin_number_range (pin : Z) : 0 <= Z.land pin 31 < 32.
Proof.
  destruct (pin_number pin) as [_ ->]. apply Z.mod_pos_bound. lia.
Qed.

(** Two valid pins with the same port and the same number are the same. *)
Lemma valid_pin_eq (p q : Z) :
  valid_pin p -> valid_pin q ->
  get_gpio_port p = get_gpio_port q -> Z.land p 31 = Z.land q 31 -> p = q.
Proof.
  unfold valid_pin, get_gpio_port. intros Hp Hq.
  destruct (pin_number p) as [-> ->]. destruct (pin_number q) as [-> ->].
  intros Hport Hnum.
  assert (Bp : 0 <= p / 32 < 5)
    by (split; [apply Z.div_pos|apply Z.div_lt_upper_bound]; lia).
  assert (Bq : 0 <= q / 32 < 5)
    by (split; [apply Z.div_pos|apply Z.div_lt_upper_bound]; lia).
  assert (E : p / 32 = q / 32).
  { assert (Cp : p / 32 = 0 \/ p / 32 = 1 \/ p / 32 = 2 \/ p / 32 = 3
                 \/ p / 32 = 4) by lia.
    assert (Cq : q / 32 = 0 \/ q / 32 = 1 \/ q / 32 = 2 \/ q / 32 = 3
                 \/ q / 32 = 4) by lia.
    destruct Cp as [Ep|[Ep|[Ep|[Ep|Ep]]]]; rewrite Ep in *;
      destruct Cq as [Eq|[Eq|[Eq|[Eq|Eq]]]]; rewrite Eq in *;
      try reflexivity; discriminate Hport. }
  pose proof (Z.div_mod p 32 ltac:(lia)).
  pose proof (Z.div_mod q 32 ltac:(lia)). lia.
Qed.

Lemma deref_assign_other (p q : port_ref) (r : LPC_GPIO_TypeDef) (g : bank) :
  p <> q -> deref q (assign p r g) = deref q g.
Proof. destruct p, q; intros H; try reflexivity; contradiction. Qed.

Lemma port_ref_dec (p q : port_ref) : {p = q} + {p <> q}.
Proof. decide equality. Qed.

Lemma testbit_pow2_other (x a b : Z) :
  0 <= a -> 0 <= b -> a <> b ->
  Z.testbit (Z.lor x (2 ^ a)) b = Z.testbit x b
  /\ Z.testbit (Z.ldiff x (2 ^ a)) b = Z.testbit x b
  /\ Z.testbit (Z.lxor x (2 ^ a)) b = Z.testbit x b.
Proof.
  intros Ha Hb Hne.
  rewrite Z.lor_spec, Z.ldiff_spec, Z.lxor_spec, Z.pow2_bits_false by lia.
  cbn [negb]. rewrite Bool.orb_false_r, Bool.andb_true_r, Bool.xorb_false_r.
  repeat split.
Qed.

Lemma gpio_read_bit (pin : Z) (g : bank) :
  gpio_read pin g
  = if Z.testbit (FIOPIN (deref (get_gpio_port pin) g)) (Z.land pin 31)
    then GPIO_HIGH else GPIO_LOW.
Proof.
  unfold gpio_read. rewrite pin_mask.
  rewrite land_pow2_testbit by apply pin_number_range.
  destruct (Z.testbit _ _); reflexivity.
Qed.

(** Writing a pin does not change what another pin reads. *)
Lemma gpio_read_write_other (p q value : Z) (g : bank) :
  get_gpio_port p <> get_gpio_port q \/ Z.land p 31 <> Z.land q 31 ->
  gpio_read q (gpio_write p value g) = gpio_read q g.
Proof.
  intros Hne. rewrite !gpio_read_bit. unfold gpio_write.
  destruct (port_ref_dec (get_gpio_port p) (get_gpio_port q)) as [E|Hp].
  - destruct Hne as [Hp|Hn]; [contradiction|].
    rewrite pin_mask.
    pose proof (pin_number_range p). pose proof (pin_number_range q).
    destruct (testbit_pow2_other (FIOPIN (deref (get_gpio_port p) g))
                (Z.land p 31) (Z.land q 31)) as (Hor & Hdiff & _); try lia.
    destruct (value =? GPIO_HIGH); rewrite <- E, deref_assign;
      cbn [FIOPIN store_FIOSET store_FIOCLR]; [rewrite Hor|rewrite Hdiff];
      reflexivity.
  - destruct (value =? GPIO_HIGH); rewrite deref_assign_other by exact Hp;
      reflexivity.
Qed.

Lemma GPIO_PIN_decode (port pin : Z) :
  0 <= port <= 7 -> 0 <= pin <= 31 ->
  GPIO_PIN port pin = 32 * port + pin
  /\ 0 <= GPIO_PIN port pin <= 255
  /\ Z.shiftr (GPIO_PIN port pin) 5 = port
  /\ Z.land (GPIO_PIN port pin) 31 = pin
  /\ get_pin_mask (GPIO_PIN port pin) = 2 ^ pin.
Proof.
  intros Hport Hpin.
  pose (check := fun port pin =>
                   (GPIO_PIN port pin =? 32 * port + pin)
                   && (Z.shiftr (GPIO_PIN port pin) 5 =? port)
                   && (Z.land (GPIO_PIN port pin) 31 =? pin)
                   && (get_pin_mask (GPIO_PIN port pin) =? 2 ^ pin)).
  assert (H : check port pin = true).
  { apply (forall_below (fun a => check a pin) 8); [|lia].
    apply forallb_forall. intros a Ha.
    apply (forall_below (fun b => check a b) 32); [|lia].
    revert a Ha. apply forallb_forall. vm_compute. reflexivity. }
  unfold check in H.
  apply andb_prop in H. destruct H as [H H4].
  apply andb_prop in H. destruct H as [H H3].
  apply andb_prop in H. destruct H as [H1 H2].
  apply Z.eqb_eq in H1, H2, H3, H4. rewrite H1 in *. repeat split; auto; lia.
Qed.

(** X7: [GPIO_PIN] and the decoding in [gpio.c] are inverse to each other:
    for a port number up to 7 and a pin number up to 31 the identifier is
    [32 * port + pin] and fits a byte, shifting it right by 5 gives the
    port back, masking it with [0x1F] the pin number, and the pin mask is
    [2 ^ pin].  The port numbers 0 to 4 select five different register
    blocks, and 5 to 7 fall back to the block of port 0. *)
Theorem GPIO_PIN_decodes :
  (forall port pin : Z,
      0 <= port <= 7 -> 0 <= pin <= 31 ->
      GPIO_PIN port pin = 32 * port + pin
      /\ 0 <= GPIO_PIN port pin <= 255
      /\ Z.shiftr (GPIO_PIN port pin) 5 = port
      /\ Z.land (GPIO_PIN port pin) 31 = pin
      /\ get_pin_mask (GPIO_PIN port pin) = 2 ^ pin)
  /\ (forall port port' pin pin' : Z,
         0 <= port <= 4 -> 0 <= port' <= 4 ->
         0 <= pin <= 31 -> 0 <= pin' <= 31 ->
         get_gpio_port (GPIO_PIN port pin) = get_gpio_port (GPIO_PIN port' pin') ->
         port = port')
  /\ (forall port pin : Z,
         5 <= port <= 7 -> 0 <= pin <= 31 ->
         get_gpio_port (GPIO_PIN port pin) = Port0).
Proof.
  pose proof GPIO_PIN_decode as decode.
  split; [exact decode|]. split.
  - intros port port' pin pin' Hp Hp' Hn Hn'. unfold get_gpio_port.
    destruct (decode port pin) as (_ & _ & -> & _); try lia.
    destruct (decode port' pin') as (_ & _ & -> & _); try lia.
    assert (C : port = 0 \/ port = 1 \/ port = 2 \/ port = 3 \/ port = 4) by lia.
    assert (C' : port' = 0 \/ port' = 1 \/ port' = 2 \/ port' = 3 \/ port' = 4)
      by lia.
    destruct C as [->|[->|[->|[->| ->]]]];
      destruct C' as [->|[->|[->|[->| ->]]]];
      intros E; try reflexivity; discriminate E.
  - intros port pin Hp Hn. unfold get_gpio_port.
    destruct (decode port pin) as (_ & _ & -> & _); try lia.
    assert (C : port = 5 \/ port = 6 \/ port = 7) by lia.
    destruct C as [->|[->| ->]]; reflexivity.
Qed.

Lemma GPIO_PIN_decodes_witness :
  (GPIO_PIN 1 22 = 32 * 1 + 22
   /\ 0 <= GPIO_PIN 1 22 <= 255
   /\ Z.shiftr (GPIO_PIN 1 22) 5 = 1
   /\ Z.land (GPIO_PIN 1 22) 31 = 22
   /\ get_pin_mask (GPIO_PIN 1 22) = 2 ^ 22)
  /\ get_gpio_port (GPIO_PIN 6 3) = Port0.
Proof.
  destruct GPIO_PIN_decodes as (Hdecode & _ & Halias).
  split.
  - apply Hdecode; lia.
  - apply Halias; lia.
Defined.

Lemma gpio_read_write_any (p q value : Z) (g : bank) :
  valid_pin p -> valid_pin q ->
  gpio_read q (gpio_write p value g)
  = if p =? q then level_of value else gpio_read q g.
Proof.
  intros Hp Hq. destruct (Z.eqb_spec p q) as [->|Hne].
  - apply gpio_read_write.
  - apply gpio_read_write_other.
    destruct (port_ref_dec (get_gpio_port p) (get_gpio_port q)) as [E|]; [|auto].
    destruct (Z.eq_dec (Z.land p 31) (Z.land q 31)) as [E'|]; [|auto].
    exfalso. apply Hne. apply valid_pin_eq; assumption.
Qed.

Lemma gpio_writes_cons (w : Z * Z) (ws : list (Z * Z)) (g : bank) :
  gpio_writes (w :: ws) g = gpio_writes ws (gpio_write (fst w) (snd w) g).
Proof. reflexivity. Qed.

Lemma gpio_writes_read (ws : list (Z * Z)) :
  forall (q : Z) (g : bank),
    valid_pin q -> Forall (fun w => valid_pin (fst w)) ws ->
    gpio_read q (gpio_writes ws g)
    = match last_write q ws with
      | Some v => level_of v
      | None => gpio_read q g
      end.
Proof.
  induction ws as [|w ws IH]; intros q g Hq Hws; [reflexivity|].
  inversion Hws as [|? ? Hw Hrest]; subst.
  rewrite gpio_writes_cons, IH by assumption. cbn [last_write].
  destruct (last_write q ws); [reflexivity|].
  rewrite gpio_read_write_any by assumption.
  destruct (fst w =? q); reflexivity.
Qed.

(** X8: after any run of [gpio_write] calls on valid pins, a valid pin
    reads the level of the last write made to it (high for [GPIO_HIGH], low
    for any other value), however many other pins were written in between,
    and what it read before if it was not written at all. *)
Theorem gpio_read_after_writes (ws : list (Z * Z)) (q : Z) (g : bank) :
  valid_pin q ->
  Forall (fun w => valid_pin (fst w)) ws ->
  gpio_read q (gpio_writes ws g)
  = match last_write q ws with
    | Some v => level_of v
    | None => gpio_read q g
    end.
Proof. intros Hq Hws. apply gpio_writes_read; assumption. Qed.

Lemma gpio_read_after_writes_witness :
  gpio_read P0_1 (gpio_writes [(P0_1, 1); (P2_0, 0); (P0_1, 0); (P0_2, 1)]
                              released)
  = GPIO_LOW.
Proof.
  apply (gpio_read_after_writes [(P0_1, 1); (P2_0, 0); (P0_1, 0); (P0_2, 1)]
                                P0_1 released).
  - unfold valid_pin. cbn. lia.
  - repeat constructor; unfold valid_pin; cbn; lia.
Defined.

Lemma toggle_read (p : Z) (g : bank) :
  gpio_read p (gpio_toggle p g) = 1 - gpio_read p g.
Proof.
  rewrite !gpio_read_bit. unfold gpio_toggle. rewrite deref_assign.
  cbn [FIOPIN]. rewrite pin_mask, Z.lxor_spec.
  rewrite Z.pow2_bits_true by apply pin_number_range.
  destruct (Z.testbit _ _); reflexivity.
Qed.

(** X9: [gpio_toggle] inverts the level its pin reads, leaves what every
    other valid pin reads, and applied twice restores the ports exactly. *)
Theorem gpio_toggle_inverts :
  (forall (p : Z) (g : bank),
      gpio_read p (gpio_toggle p g) = 1 - gpio_read p g)
  /\ (forall (p : Z) (g : bank), gpio_toggle p (gpio_toggle p g) = g)
  /\ (forall (p q : Z) (g : bank),
         valid_pin p -> valid_pin q -> q <> p ->
         gpio_read q (gpio_toggle p g) = gpio_read q g).
Proof.
  split; [exact toggle_read|]. split.
  - intros p g. unfold gpio_toggle. rewrite deref_assign. cbn [FIODIR FIOPIN].
    rewrite Z.lxor_assoc, Z.lxor_nilpotent, Z.lxor_0_r.
    destruct g as [[] [] [] [] []]. destruct (get_gpio_port p); reflexivity.
  - intros p q g Hp Hq Hne. rewrite !gpio_read_bit. unfold gpio_toggle.
    destruct (port_ref_dec (get_gpio_port p) (get_gpio_port q)) as [E|Hport].
    + rewrite <- E, deref_assign. cbn [FIOPIN]. rewrite pin_mask.
      assert (Hnum : Z.land p 31 <> Z.land q 31).
      { intros Hn. apply Hne. symmetry. apply valid_pin_eq; assumption. }
      pose proof (pin_number_range p). pose proof (pin_number_range q).
      destruct (testbit_pow2_other (FIOPIN (deref (get_gpio_port p) g))
                  (Z.land p 31) (Z.land q 31)) as (_ & _ & Hx); try lia.
      rewrite Hx. reflexivity.
    + rewrite deref_assign_other by exact Hport. reflexivity.
Qed.

Lemma gpio_toggle_inverts_witness :
  gpio_read P1_20 (gpio_toggle P0_22 released) = gpio_read P1_20 released.
Proof.
  apply (proj2 (proj2 gpio_toggle_inverts) P0_22 P1_20 released);
    unfold valid_pin; cbn; lia.
Defined.

(* ================================================================== *)
(** ** Pin configuration *)

Lemma testbit_3 (i : Z) : 0 <= i -> Z.testbit 3 i = (i <? 2).
Proof.
  intros Hi. destruct (Z.ltb_spec i 2) as [Hlt|Hge].
  - assert (C : i = 0 \/ i = 1) by lia. destruct C as [->| ->]; reflexivity.
  - apply Z.bits_above_log2; [lia|]. change (Z.log2 3) with 1. lia.
Qed.

Lemma small_bits (v i : Z) : 0 <= v <= 3 -> 2 <= i -> Z.testbit v i = false.
Proof.
  intros Hv Hi. destruct (Z.eq_dec v 0) as [->|Hne]; [apply Z.bits_0|].
  apply Z.bits_above_log2; [lia|].
  assert (Z.log2 v < 2) by (apply Z.log2_lt_pow2; lia). lia.
Qed.

(** Bit [n] of the mask [3 << b]. *)
Lemma mask_bit (b n : Z) :
  0 <= b -> 0 <= n ->
  Z.testbit (Z.shiftl 3 b) n = (b <=? n) && (n <? b + 2).
Proof.
  intros Hb Hn. rewrite Z.shiftl_spec by lia.
  destruct (Z.leb_spec b n) as [Hle|Hlt].
  - rewrite testbit_3 by lia. cbn [andb].
    destruct (Z.ltb_spec (n - b) 2), (Z.ltb_spec n (b + 2)); try reflexivity; lia.
  - apply Z.testbit_neg_r. lia.
Qed.

(** Bit [n] of a two-bit value shifted to [b] lies under the mask. *)
Lemma value_bit (v b n : Z) :
  0 <= v <= 3 -> 0 <= b -> 0 <= n ->
  Z.testbit (Z.shiftl v b) n = true -> Z.testbit (Z.shiftl 3 b) n = true.
Proof.
  intros Hv Hb Hn. rewrite mask_bit, Z.shiftl_spec by lia.
  destruct (Z.leb_spec b n) as [Hle|Hlt].
  - destruct (Z.ltb_spec n (b + 2)) as [|Hge]; [reflexivity|].
    rewrite small_bits by lia. discriminate.
  - rewrite Z.testbit_neg_r by lia. discriminate.
Qed.

(** The two-bit field at [b] after it was cleared and set to [v]. *)
Lemma field_after_set (r b v : Z) :
  0 <= b -> 0 <= v <= 3 ->
  Z.land (Z.shiftr (Z.lor (Z.land r (Z.lnot (Z.shiftl 3 b))) (Z.shiftl v b)) b) 3
  = v.
Proof.
  intros Hb Hv. apply Z.bits_inj'. intros i Hi.
  rewrite Z.land_spec, Z.shiftr_spec, Z.lor_spec, Z.land_spec, Z.lnot_spec,
    mask_bit, Z.shiftl_spec, testbit_3 by lia.
  replace (i + b - b) with i by lia.
  destruct (Z.ltb_spec i 2) as [Hlt|Hge].
  - destruct (Z.leb_spec b (i + b)); [|lia].
    destruct (Z.ltb_spec (i + b) (b + 2)); [|lia].
    cbn [andb negb]. rewrite Bool.andb_false_r, Bool.andb_true_r. reflexivity.
  - rewrite Bool.andb_false_r. symmetry. apply small_bits; lia.
Qed.

Lemma field_after_clear (r b : Z) :
  0 <= b ->
  Z.land (Z.shiftr (Z.land r (Z.lnot (Z.shiftl 3 b))) b) 3 = 0.
Proof.
  intros Hb. pose proof (field_after_set r b 0 Hb ltac:(lia)) as E.
  rewrite Z.shiftl_0_l, Z.lor_0_r in E. exact E.
Qed.

(** A field two or more bits away is not touched. *)
Lemma field_other (r b b' v : Z) :
  0 <= b -> 0 <= b' -> 0 <= v <= 3 -> (b' + 2 <= b \/ b + 2 <= b') ->
  Z.land (Z.shiftr (Z.lor (Z.land r (Z.lnot (Z.shiftl 3 b))) (Z.shiftl v b)) b') 3
  = Z.land (Z.shiftr r b') 3.
Proof.
  intros Hb Hb' Hv Hfar. apply Z.bits_inj'. intros i Hi.
  rewrite !Z.land_spec, !Z.shiftr_spec, Z.lor_spec, Z.land_spec, Z.lnot_spec,
    mask_bit, testbit_3 by lia.
  destruct (Z.ltb_spec i 2) as [Hlt|Hge]; [|rewrite !Bool.andb_false_r; reflexivity].
  rewrite !Bool.andb_true_r.
  assert (M : (b <=? i + b') && (i + b' <? b + 2) = false).
  { destruct (Z.leb_spec b (i + b')), (Z.ltb_spec (i + b') (b + 2));
      try reflexivity; lia. }
  rewrite M. cbn [negb]. rewrite Bool.andb_true_r.
  destruct (Z.testbit (Z.shiftl v b) (i + b')) eqn:V; [|apply Bool.orb_false_r].
  apply value_bit in V; try lia. rewrite mask_bit, M in V by lia. discriminate.
Qed.

Lemma bit_pos_range (pin : Z) :
  0 <= bit_pos pin <= 30 /\ bit_pos pin = 2 * (pin mod 16).
Proof.
  unfold bit_pos. destruct (pin_number pin) as [_ ->].
  pose proof (Z.mod_pos_bound (pin mod 32) 16 ltac:(lia)).
  assert (E : (pin mod 32) mod 16 = pin mod 16).
  { Z.div_mod_to_equations. lia. }
  rewrite E in *. lia.
Qed.

Lemma pin_register_valid (pin : Z) :
  valid_pin pin -> exists ref, pin_register pin = Some ref.
Proof.
  unfold valid_pin, pin_register. intros Hp.
  destruct (pin_number pin) as [-> _].
  assert (B : 0 <= pin / 32 < 5)
    by (split; [apply Z.div_pos|apply Z.div_lt_upper_bound]; lia).
  assert (C : pin / 32 = 0 \/ pin / 32 = 1 \/ pin / 32 = 2 \/ pin / 32 = 3
              \/ pin / 32 = 4) by lia.
  destruct C as [->|[->|[->|[->| ->]]]]; cbn; eexists; reflexivity.
Qed.

Lemma reg_deref_assign (p : reg_ref) (v : Z) (r : pin_regs) :
  reg_deref p (reg_assign p v r) = v.
Proof. destruct p; reflexivity. Qed.

Lemma reg_deref_assign_other (p q : reg_ref) (v : Z) (r : pin_regs) :
  p <> q -> reg_deref q (reg_assign p v r) = reg_deref q r.
Proof. destruct p, q; intros H; try reflexivity; contradiction. Qed.

Lemma reg_assign_assign (p : reg_ref) (v w : Z) (r : pin_regs) :
  reg_assign p w (reg_assign p v r) = reg_assign p w r.
Proof. destruct p; reflexivity. Qed.

Lemma reg_ref_dec (p q : reg_ref) : {p = q} + {p <> q}.
Proof. decide equality. Qed.

Lemma assign_assign (p : port_ref) (r r' : LPC_GPIO_TypeDef) (g : bank) :
  assign p r' (assign p r g) = assign p r' g.
Proof. destruct p; reflexivity. Qed.

(** [gpio_config] leaves the pin levels of every port. *)
Lemma gpio_config_levels (pin dir pull : Z) (ch : chip) (p : port_ref) :
  FIOPIN (deref p (io (gpio_config pin dir pull ch))) = FIOPIN (deref p (io ch)).
Proof.
  unfold gpio_config. cbn [io].
  destruct (port_ref_dec (get_gpio_port pin) p) as [<-|Hne].
  - rewrite deref_assign. reflexivity.
  - rewrite deref_assign_other by exact Hne. reflexivity.
Qed.

Lemma gpio_config_direction (pin dir pull : Z) (ch : chip) :
  is_output pin (io (gpio_config pin dir pull ch)) = (dir =? GPIO_OUTPUT).
Proof.
  unfold is_output, gpio_config. cbn [io]. rewrite deref_assign. cbn [FIODIR].
  rewrite pin_mask. pose proof (pin_number_range pin).
  destruct (dir =? GPIO_OUTPUT).
  - rewrite Z.lor_spec, Z.pow2_bits_true by lia. apply Bool.orb_true_r.
  - rewrite Z.land_spec, Z.lnot_spec, Z.pow2_bits_true by lia.
    apply Bool.andb_false_r.
Qed.

Lemma gpio_config_fields (pin dir pull : Z) (ch : chip) :
  valid_pin pin -> 0 <= pull <= 3 ->
  pin_field pin (PINSEL (con (gpio_config pin dir pull ch))) = Some 0
  /\ pin_field pin (PINMODE (con (gpio_config pin dir pull ch))) = Some pull.
Proof.
  intros Hp Hpull. destruct (pin_register_valid pin Hp) as (ref & Href).
  pose proof (bit_pos_range pin) as [Hb _].
  unfold gpio_config, pin_field, set_pin_function, set_pin_pull.
  cbn [con PINSEL PINMODE]. rewrite Href, !reg_deref_assign.
  rewrite field_after_clear, field_after_set by lia. split; reflexivity.
Qed.

(** X10: [gpio_config] of a valid pin with one of the four pull modes
    leaves the pin as a GPIO (function field 00) with the requested pull
    mode in its mode field and the requested direction in its direction
    bit, and changes the level of no pin. *)
Theorem gpio_config_configures (pin dir pull : Z) (ch : chip) :
  valid_pin pin -> 0 <= pull <= 3 ->
  pin_field pin (PINSEL (con (gpio_config pin dir pull ch))) = Some 0
  /\ pin_field pin (PINMODE (con (gpio_config pin dir pull ch))) = Some pull
  /\ is_output pin (io (gpio_config pin dir pull ch)) = (dir =? GPIO_OUTPUT)
  /\ forall q : Z,
       gpio_read q (io (gpio_config pin dir pull ch)) = gpio_read q (io ch).
Proof.
  intros Hp Hpull.
  destruct (gpio_config_fields pin dir pull ch Hp Hpull) as [Hsel Hmode].
  split; [exact Hsel|]. split; [exact Hmode|].
  split; [apply gpio_config_direction|].
  intros q. unfold gpio_read. rewrite gpio_config_levels. reflexivity.
Qed.

Lemma gpio_config_configures_witness :
  pin_field P1_22
    (PINMODE (con (gpio_config P1_22 GPIO_INPUT GPIO_PULL_UP
                               (mkChip (mkPincon (mkRegs 0 0 0 0 0 0 0)
                                                 (mkRegs 0 0 0 0 0 0 0))
                                       released))))
  = Some GPIO_PULL_UP.
Proof.
  apply (gpio_config_configures P1_22 GPIO_INPUT GPIO_PULL_UP);
    unfold valid_pin, GPIO_PULL_UP; cbn; lia.
Defined.

Lemma field_other_clear (r b b' : Z) :
  0 <= b -> 0 <= b' -> (b' + 2 <= b \/ b + 2 <= b') ->
  Z.land (Z.shiftr (Z.land r (Z.lnot (Z.shiftl 3 b))) b') 3
  = Z.land (Z.shiftr r b') 3.
Proof.
  intros Hb Hb' Hfar.
  pose proof (field_other r b b' 0 Hb Hb' ltac:(lia) Hfar) as E.
  rewrite Z.shiftl_0_l, Z.lor_0_r in E. exact E.
Qed.

Lemma gpio_config_other_fields (pin q dir pull : Z) (ch : chip) :
  0 <= pull <= 3 ->
  pin_register q <> pin_register pin \/ bit_pos q <> bit_pos pin ->
  pin_field q (PINSEL (con (gpio_config pin dir pull ch)))
  = pin_field q (PINSEL (con ch))
  /\ pin_field q (PINMODE (con (gpio_config pin dir pull ch)))
     = pin_field q (PINMODE (con ch)).
Proof.
  intros Hpull Hne.
  destruct (bit_pos_range pin) as [Hb Eb]. destruct (bit_pos_range q) as [Hb' Eb'].
  unfold gpio_config, pin_field, set_pin_function, set_pin_pull.
  cbn [con PINSEL PINMODE].
  destruct (pin_register q) as [rq|]; [|split; reflexivity].
  destruct (pin_register pin) as [rp|]; [|split; reflexivity].
  destruct (reg_ref_dec rp rq) as [<-|Hr].
  - assert (Hfar : bit_pos q + 2 <= bit_pos pin \/ bit_pos pin + 2 <= bit_pos q).
    { destruct Hne as [H|H]; [contradiction H; reflexivity|]. lia. }
    rewrite !reg_deref_assign.
    rewrite field_other_clear, field_other by lia. split; reflexivity.
  - rewrite !reg_deref_assign_other by exact Hr. split; reflexivity.
Qed.

Lemma gpio_config_other_direction (pin q dir pull : Z) (ch : chip) :
  get_gpio_port pin <> get_gpio_port q \/ Z.land pin 31 <> Z.land q 31 ->
  is_output q (io (gpio_config pin dir pull ch)) = is_output q (io ch).
Proof.
  intros Hne. unfold is_output, gpio_config. cbn [io].
  destruct (port_ref_dec (get_gpio_port pin) (get_gpio_port q)) as [E|Hp].
  - destruct Hne as [H|Hn]; [contradiction|].
    rewrite <- E, deref_assign. cbn [FIODIR]. rewrite pin_mask.
    pose proof (pin_number_range pin). pose proof (pin_number_range q).
    destruct (dir =? GPIO_OUTPUT).
    + rewrite Z.lor_spec, Z.pow2_bits_false by lia. apply Bool.orb_false_r.
    + rewrite Z.land_spec, Z.lnot_spec, Z.pow2_bits_false by lia.
      apply Bool.andb_true_r.
  - rewrite deref_assign_other by exact Hp. reflexivity.
Qed.

Lemma valid_pin_apart (p q : Z) :
  valid_pin p -> valid_pin q -> q <> p ->
  get_gpio_port p <> get_gpio_port q \/ Z.land p 31 <> Z.land q 31.
Proof.
  intros Hp Hq Hne.
  destruct (port_ref_dec (get_gpio_port p) (get_gpio_port q)) as [E|]; [|auto].
  destruct (Z.eq_dec (Z.land p 31) (Z.land q 31)) as [E'|]; [|auto].
  exfalso. apply Hne. symmetry. apply valid_pin_eq; assumption.
Qed.

(** On ports 0 and 1 different pins have different fields. *)
Lemma low_pins_apart (pin q : Z) :
  0 <= pin < 64 -> 0 <= q < 64 -> q <> pin ->
  pin_register q <> pin_register pin \/ bit_pos q <> bit_pos pin.
Proof.
  intros Hp Hq Hne.
  destruct (bit_pos_range pin) as [_ Eb]. destruct (bit_pos_range q) as [_ Eb'].
  unfold pin_register.
  destruct (pin_number pin) as [-> ->]. destruct (pin_number q) as [-> ->].
  assert (Cp : pin / 32 = 0 \/ pin / 32 = 1) by (Z.div_mod_to_equations; lia).
  assert (Cq : q / 32 = 0 \/ q / 32 = 1) by (Z.div_mod_to_equations; lia).
  destruct Cp as [Ep|Ep]; rewrite Ep; destruct Cq as [Eq|Eq]; rewrite Eq;
    cbn [Z.eqb Pos.eqb];
    destruct (Z.ltb_spec (pin mod 32) 16), (Z.ltb_spec (q mod 32) 16);
    try (left; discriminate);
    right; rewrite Eb, Eb'; Z.div_mod_to_equations; lia.
Qed.

(** X11: [gpio_config] of a valid pin leaves the direction bit of every
    other valid pin, and leaves the function and pull-mode fields of every
    pin whose field lies in another register or at another bit position.
    On ports 0 and 1 that is every other pin.  On ports 2, 3 and 4 a single
    register serves all 32 pin numbers, so that pin [n + 16] shares its
    field with pin [n]. *)
Theorem gpio_config_leaves_other_pins :
  (forall (pin q dir pull : Z) (ch : chip),
      valid_pin pin -> valid_pin q -> q <> pin ->
      is_output q (io (gpio_config pin dir pull ch)) = is_output q (io ch))
  /\ (forall (pin q dir pull : Z) (ch : chip),
         0 <= pull <= 3 ->
         pin_register q <> pin_register pin \/ bit_pos q <> bit_pos pin ->
         pin_field q (PINSEL (con (gpio_config pin dir pull ch)))
         = pin_field q (PINSEL (con ch))
         /\ pin_field q (PINMODE (con (gpio_config pin dir pull ch)))
            = pin_field q (PINMODE (con ch)))
  /\ (forall pin q : Z,
         0 <= pin < 64 -> 0 <= q < 64 -> q <> pin ->
         pin_register q <> pin_register pin \/ bit_pos q <> bit_pos pin)
  /\ (forall port n : Z,
         2 <= port <= 4 -> 0 <= n <= 15 ->
         pin_register (GPIO_PIN port (n + 16)) = pin_register (GPIO_PIN port n)
         /\ bit_pos (GPIO_PIN port (n + 16)) = bit_pos (GPIO_PIN port n)).
Proof.
  split; [|split; [exact gpio_config_other_fields|split; [exact low_pins_apart|]]].
  - intros pin q dir pull ch Hp Hq Hne.
    apply gpio_config_other_direction, valid_pin_apart; assumption.
  - intros port n Hport Hn.
    destruct (GPIO_PIN_decode port (n + 16)) as (_ & _ & S1 & L1 & _); try lia.
    destruct (GPIO_PIN_decode port n) as (_ & _ & S2 & L2 & _); try lia.
    unfold pin_register, bit_pos. rewrite S1, S2, L1, L2.
    assert (C : port = 2 \/ port = 3 \/ port = 4) by lia.
    split.
    + destruct C as [->|[->| ->]]; reflexivity.
    + Z.div_mod_to_equations. lia.
Qed.

Lemma gpio_config_leaves_other_pins_witness :
  is_output P1_20
    (io (gpio_config P0_0 GPIO_OUTPUT GPIO_PULL_NONE
           (mkChip (mkPincon (mkRegs 0 0 0 0 0 0 0) (mkRegs 0 0 0 0 0 0 0))
                   released)))
  = is_output P1_20 released
  /\ (pin_register P1_21 <> pin_register P1_20
      \/ bit_pos P1_21 <> bit_pos P1_20)
  /\ pin_register (GPIO_PIN 2 (0 + 16)) = pin_register (GPIO_PIN 2 0).
Proof.
  destruct gpio_config_leaves_other_pins as (Hdir & _ & Hlow & Halias).
  split; [|split].
  - apply (Hdir P0_0 P1_20); unfold valid_pin; cbn; lia.
  - apply Hlow; cbn; lia.
  - apply Halias; lia.
Defined.

Lemma land_lor_clear (x v b : Z) :
  0 <= v <= 3 -> 0 <= b ->
  Z.land (Z.lor (Z.land x (Z.lnot (Z.shiftl 3 b))) (Z.shiftl v b))
         (Z.lnot (Z.shiftl 3 b))
  = Z.land x (Z.lnot (Z.shiftl 3 b)).
Proof.
  intros Hv Hb. apply Z.bits_inj'. intros n Hn.
  rewrite !Z.land_spec, Z.lor_spec, Z.land_spec, Z.lnot_spec by lia.
  destruct (Z.testbit (Z.shiftl 3 b) n) eqn:M; cbn [negb].
  - rewrite !Bool.andb_false_r. reflexivity.
  - destruct (Z.testbit (Z.shiftl v b) n) eqn:V.
    + apply value_bit in V; try lia. congruence.
    + rewrite Bool.orb_false_r, !Bool.andb_true_r. reflexivity.
Qed.

Lemma direction_overwritten (x m d1 d2 : Z) :
  (if d2 =? GPIO_OUTPUT
   then Z.lor (if d1 =? GPIO_OUTPUT then Z.lor x m else Z.land x (Z.lnot m)) m
   else Z.land (if d1 =? GPIO_OUTPUT then Z.lor x m else Z.land x (Z.lnot m))
               (Z.lnot m))
  = if d2 =? GPIO_OUTPUT then Z.lor x m else Z.land x (Z.lnot m).
Proof.
  destruct (d2 =? GPIO_OUTPUT), (d1 =? GPIO_OUTPUT);
    apply Z.bits_inj'; intros n Hn;
    rewrite ?Z.lor_spec, ?Z.land_spec, ?Z.lnot_spec, ?Z.lor_spec, ?Z.land_spec,
      ?Z.lnot_spec by lia;
    destruct (Z.testbit x n), (Z.testbit m n); reflexivity.
Qed.

(** X12: configuring a pin again replaces its earlier configuration
    altogether: the chip is as if the second [gpio_config] alone had been
    made (so configuring twice alike is configuring once). *)
Theorem gpio_config_last_wins (pin d1 p1 d2 p2 : Z) (ch : chip) :
  0 <= p1 <= 3 ->
  gpio_config pin d2 p2 (gpio_config pin d1 p1 ch) = gpio_config pin d2 p2 ch.
Proof.
  intros Hp1. destruct (bit_pos_range pin) as [Hb _].
  unfold gpio_config. cbn [con io PINSEL PINMODE].
  rewrite deref_assign, assign_assign. cbn [FIODIR FIOPIN].
  rewrite direction_overwritten. f_equal. f_equal.
  - unfold set_pin_function. destruct (pin_register pin) as [ref|]; [|reflexivity].
    rewrite reg_deref_assign, reg_assign_assign.
    rewrite <- Z.land_assoc, Z.land_diag. reflexivity.
  - unfold set_pin_pull. destruct (pin_register pin) as [ref|]; [|reflexivity].
    rewrite reg_deref_assign, reg_assign_assign.
    rewrite land_lor_clear by lia. reflexivity.
Qed.

Lemma gpio_config_last_wins_witness :
  gpio_config P1_20 GPIO_INPUT GPIO_PULL_UP
    (gpio_config P1_20 GPIO_OUTPUT GPIO_REPEATER
       (mkChip (mkPincon (mkRegs 0 0 0 0 0 0 0) (mkRegs 0 0 0 0 0 0 0))
               released))
  = gpio_config P1_20 GPIO_INPUT GPIO_PULL_UP
      (mkChip (mkPincon (mkRegs 0 0 0 0 0 0 0) (mkRegs 0 0 0 0 0 0 0))
              released).
Proof.
  apply gpio_config_last_wins. unfold GPIO_REPEATER. lia.
Defined.

(* ================================================================== *)
(** ** Further properties of the countdown *)

Lemma timer_update_idle (m : machine) :
  state m <> STATE_RUNNING \/ sub32 (millis (clk m)) (last_tick m) < 1000 ->
  timer_update m = m.
Proof.
  intros H. unfold timer_update.
  destruct (state m) eqn:Hs; cbn [state_eqb andb]; try reflexivity.
  destruct H as [H|H]; [contradiction H; reflexivity|].
  destruct (Z.geb_spec (sub32 (millis (clk m)) (last_tick m)) 1000); [lia|].
  reflexivity.
Qed.

Lemma timer_update_fires (m : machine) :
  state m = STATE_RUNNING ->
  1000 <= sub32 (millis (clk m)) (last_tick m) ->
  0 <= timer_value m < 2 ^ 32 ->
  timer_update m
  = if timer_value m >? 0
    then set_timer_value (timer_value m - 1) (set_last_tick (millis (clk m)) m)
    else set_state STATE_DONE (set_last_tick (millis (clk m)) m).
Proof.
  intros Hs He Ht. unfold timer_update. rewrite Hs. cbn [state_eqb andb].
  destruct (Z.geb_spec (sub32 (millis (clk m)) (last_tick m)) 1000); [|lia].
  cbn [timer_value set_last_tick].
  destruct (Z.gtb_spec (timer_value m) 0); [|reflexivity].
  unfold sub32. rewrite wrap32_small by (unfold is_u32; lia). reflexivity.
Qed.

(** X13: the per-second update changes nothing unless the state is
    [STATE_RUNNING] and 1000 ms have passed since the reference tick.  It
    never touches [set_value], never raises [timer_value], lowers it by at
    most one and not below zero, and the only state change it makes is from
    [STATE_RUNNING] to [STATE_DONE], at zero. *)
Theorem timer_update_only_counts_down (m : machine) :
  0 <= timer_value m < 2 ^ 32 ->
  (state m <> STATE_RUNNING \/ sub32 (millis (clk m)) (last_tick m) < 1000 ->
   timer_update m = m)
  /\ set_value (timer_update m) = set_value m
  /\ timer_value m - 1 <= timer_value (timer_update m) <= timer_value m
  /\ 0 <= timer_value (timer_update m)
  /\ (state (timer_update m) = state m
      \/ (state m = STATE_RUNNING /\ timer_value m = 0
          /\ state (timer_update m) = STATE_DONE)).
Proof.
  intros Ht. split; [apply timer_update_idle|].
  destruct (state m) eqn:Hs;
    try (rewrite timer_update_idle by (left; rewrite Hs; discriminate);
         rewrite Hs; repeat split; try lia; left; reflexivity).
  destruct (Z.lt_ge_cases (sub32 (millis (clk m)) (last_tick m)) 1000) as [Hlt|Hge].
  - rewrite timer_update_idle by (right; exact Hlt).
    rewrite Hs. repeat split; try lia. left; reflexivity.
  - rewrite timer_update_fires by assumption.
    destruct (Z.gtb_spec (timer_value m) 0); cbn.
    + repeat split; try lia. left. congruence.
    + repeat split; try lia. right. repeat split; try lia; congruence.
Qed.

Lemma timer_update_only_counts_down_witness :
  timer_update (boot (set_counter 5000 power_on) released)
  = boot (set_counter 5000 power_on) released.
Proof.
  apply (timer_update_only_counts_down
           (boot (set_counter 5000 power_on) released)).
  - cbn. lia.
  - left. discriminate.
Defined.

(** One update, a full second or more after the reference tick was set to
    the tick count. *)
Lemma update_after_second (d : N) (m : machine) :
  state m = STATE_RUNNING ->
  last_tick m = millis (clk m) ->
  0 <= timer_value m < 2 ^ 32 ->
  1000 <= Z.of_N d < 2 ^ 32 ->
  last_tick (update_after d m) = millis (clk (update_after d m))
  /\ (0 < timer_value m ->
      state (update_after d m) = STATE_RUNNING
      /\ timer_value (update_after d m) = timer_value m - 1)
  /\ (timer_value m = 0 ->
      state (update_after d m) = STATE_DONE
      /\ timer_value (update_after d m) = 0).
Proof.
  intros Hs Hl Ht Hd. unfold update_after.
  rewrite timer_update_fires; cbn [state clk last_tick timer_value set_clk];
    try assumption.
  - destruct (Z.gtb_spec (timer_value m) 0); cbn; repeat split; try lia;
      assumption.
  - rewrite Hl. unfold millis. rewrite elapsed_after.
    rewrite wrap32_small by (unfold is_u32; lia). lia.
Qed.

Lemma update_after_done (d : N) (m : machine) :
  state m <> STATE_RUNNING ->
  state (update_after d m) = state m
  /\ timer_value (update_after d m) = timer_value m.
Proof.
  intros Hs. unfold update_after.
  rewrite timer_update_idle by (left; exact Hs). split; reflexivity.
Qed.

Lemma updates_after_done (ds : list N) :
  forall m : machine,
    state m = STATE_DONE ->
    state (updates_after ds m) = STATE_DONE
    /\ timer_value (updates_after ds m) = timer_value m.
Proof.
  induction ds as [|d ds IH]; intros m Hs; [split; [exact Hs|reflexivity]|].
  unfold updates_after. cbn [fold_left]. fold (updates_after ds (update_after d m)).
  destruct (update_after_done d m) as [Es Et]; [rewrite Hs; discriminate|].
  destruct (IH (update_after d m)) as [Es' Et']; [rewrite Es; exact Hs|].
  rewrite Es', Et', Et. split; reflexivity.
Qed.

(** X14: a countdown of [n] seconds.  From [STATE_RUNNING] with the
    reference tick just set and [n] seconds remaining, updates that each
    find at least 1000 ms elapsed lower the remaining time by one each; after
    [n] of them it is zero and the state still [STATE_RUNNING], and the
    update after that, and every later one, leaves [STATE_DONE] with zero
    remaining. *)
Theorem countdown_reaches_done (ds : list N) (m : machine) :
  state m = STATE_RUNNING ->
  last_tick m = millis (clk m) ->
  0 <= timer_value m < 2 ^ 32 ->
  Forall (fun d => 1000 <= Z.of_N d < 2 ^ 32) ds ->
  (Z.of_nat (length ds) <= timer_value m ->
   state (updates_after ds m) = STATE_RUNNING
   /\ timer_value (updates_after ds m) = timer_value m - Z.of_nat (length ds))
  /\ (timer_value m < Z.of_nat (length ds) ->
      state (updates_after ds m) = STATE_DONE
      /\ timer_value (updates_after ds m) = 0).
Proof.
  revert m. induction ds as [|d ds IH]; intros m Hs Hl Ht Hds.
  - cbn. split; [intros _; split; [exact Hs|lia]|lia].
  - inversion Hds as [|? ? Hd Hrest]; subst.
    unfold updates_after. cbn [fold_left length].
    fold (updates_after ds (update_after d m)).
    destruct (update_after_second d m Hs Hl Ht Hd) as (Hl' & Hpos & Hzero).
    destruct (Z.eq_dec (timer_value m) 0) as [E0|Hne].
    + destruct (Hzero E0) as [Es Et].
      destruct (updates_after_done ds (update_after d m) Es) as [Es' Et'].
      split; [lia|]. intros _. rewrite Es', Et', Et. split; reflexivity.
    + destruct Hpos as [Es Et]; [lia|].
      destruct (IH (update_after d m) Es Hl') as [Hrun Hdone];
        [lia|exact Hrest|].
      rewrite Et in Hrun, Hdone. split; intros H.
      * destruct Hrun as [-> ->]; [lia|]. split; [reflexivity|lia].
      * apply Hdone. lia.
Qed.

Lemma countdown_reaches_done_witness :
  (state (updates_after [1000%N; 1003%N] (running 7 7 2)) = STATE_RUNNING
   /\ timer_value (updates_after [1000%N; 1003%N] (running 7 7 2))
      = 2 - Z.of_nat 2)
  /\ (state (updates_after [1000%N; 1003%N; 1200%N] (running 7 7 2))
      = STATE_DONE
      /\ timer_value (updates_after [1000%N; 1003%N; 1200%N] (running 7 7 2))
         = 0).
Proof.
  split.
  - apply (countdown_reaches_done [1000%N; 1003%N] (running 7 7 2));
      try reflexivity; try (cbn; lia).
    repeat constructor; cbn; lia.
  - apply (countdown_reaches_done [1000%N; 1003%N; 1200%N] (running 7 7 2));
      try reflexivity; try (cbn; lia).
    repeat constructor; cbn; lia.
Defined.

(** X15: pause and resume.  While the state is [STATE_PAUSED] no update
    changes the state or the remaining time, however long it lasts.  The
    Start body resumes to [STATE_RUNNING] with the remaining time as it
    was and the reference tick set anew: an update less than 1000 ms after
    the resume changes nothing, and the first one at 1000 ms or more takes
    one second off. *)
Theorem resume_rearms_second (m : machine) (d : N) :
  state m = STATE_PAUSED ->
  (state (update_after d m) = STATE_PAUSED
   /\ timer_value (update_after d m) = timer_value m)
  /\ state (on_start m) = STATE_RUNNING
  /\ timer_value (on_start m) = timer_value m
  /\ (Z.of_N d < 1000 ->
      state (update_after d (on_start m)) = STATE_RUNNING
      /\ timer_value (update_after d (on_start m)) = timer_value m)
  /\ (1000 <= Z.of_N d < 2 ^ 32 -> 0 < timer_value m < 2 ^ 32 ->
      state (update_after d (on_start m)) = STATE_RUNNING
      /\ timer_value (update_after d (on_start m)) = timer_value m - 1).
Proof.
  intros Hs.
  assert (E : on_start m
              = set_last_tick (millis (clk m)) (set_state STATE_RUNNING m)).
  { unfold on_start. rewrite Hs. reflexivity. }
  split.
  - destruct (update_after_done d m) as [Es Et]; [rewrite Hs; discriminate|].
    rewrite Es, Et, Hs. split; reflexivity.
  - rewrite E. split; [reflexivity|]. split; [reflexivity|]. split.
    + intros Hd. unfold update_after. rewrite timer_update_idle.
      * split; reflexivity.
      * right. cbn [clk last_tick set_clk set_last_tick set_state].
        unfold millis. rewrite elapsed_after.
        rewrite wrap32_small by (unfold is_u32; lia). exact Hd.
    + intros Hd Ht.
      assert (Hstep := update_after_second d
                         (set_last_tick (millis (clk m))
                                        (set_state STATE_RUNNING m))
                         eq_refl eq_refl
                         (conj (Z.lt_le_incl _ _ (proj1 Ht)) (proj2 Ht)) Hd).
      destruct Hstep as (_ & Hpos & _). apply Hpos. cbn. lia.
Qed.

Lemma resume_rearms_second_witness :
  state (update_after 1000
           (on_start (set_state STATE_PAUSED (running 900 0 5))))
  = STATE_RUNNING
  /\ timer_value (update_after 1000
                    (on_start (set_state STATE_PAUSED (running 900 0 5))))
     = 5 - 1.
Proof.
  apply (resume_rearms_second (set_state STATE_PAUSED (running 900 0 5)) 1000).
  - reflexivity.
  - cbn. lia.
  - cbn. lia.
Defined.

(* ================================================================== *)
(** ** Segments and digits *)

Lemma bit_of_pattern (pattern i : Z) :
  0 <= i ->
  Z.land (Z.shiftr pattern i) 1 = if Z.testbit pattern i then 1 else 0.
Proof.
  intros Hi. change 1 with (Z.ones 1) at 1. rewrite Z.land_ones by lia.
  change (2 ^ 1) with 2. rewrite <- Z.bit0_mod, Z.shiftr_spec by lia.
  rewrite Z.add_0_l. destruct (Z.testbit pattern i); reflexivity.
Qed.

(** The writes of [display_digit] with the pins as numbers. *)
Lemma display_digit_writes_pins (pos value dp : Z) :
  0 <= pos <= 3 ->
  display_digit_writes pos value dp
  = [(64, 0); (65, 0); (66, 0); (67, 0);
     (0, Z.land (Z.shiftr (shown_pattern value) 0) 1);
     (1, Z.land (Z.shiftr (shown_pattern value) 1) 1);
     (2, Z.land (Z.shiftr (shown_pattern value) 2) 1);
     (3, Z.land (Z.shiftr (shown_pattern value) 3) 1);
     (4, Z.land (Z.shiftr (shown_pattern value) 4) 1);
     (5, Z.land (Z.shiftr (shown_pattern value) 5) 1);
     (6, Z.land (Z.shiftr (shown_pattern value) 6) 1);
     (7, dp); (64 + pos, 1)].
Proof.
  intros Hpos. unfold display_digit_writes, shown_pattern.
  destruct (value <=? 9); digit_cases pos; reflexivity.
Qed.

(** Case analysis on a segment index known to lie in [0, 6]. *)
Ltac segment_cases i :=
  let C := fresh "C" in
  assert (C : i = 0 \/ i = 1 \/ i = 2 \/ i = 3 \/ i = 4 \/ i = 5 \/ i = 6)
    by lia;
  destruct C as [C|[C|[C|[C|[C|[C|C]]]]]]; rewrite C in *; clear C.

Lemma display_digit_segment (pos value dp i : Z) (g : bank) :
  0 <= pos <= 3 -> 0 <= i <= 6 ->
  gpio_read (at_index seg_pins i) (display_digit pos value dp g)
  = if Z.testbit (shown_pattern value) i then GPIO_HIGH else GPIO_LOW.
Proof.
  intros Hpos Hi. unfold display_digit.
  rewrite display_digit_writes_pins by exact Hpos.
  generalize (shown_pattern value). intros pat.
  rewrite gpio_writes_read.
  - remember (Z.land (Z.shiftr pat 0) 1) as b0 eqn:E0.
    remember (Z.land (Z.shiftr pat 1) 1) as b1 eqn:E1.
    remember (Z.land (Z.shiftr pat 2) 1) as b2 eqn:E2.
    remember (Z.land (Z.shiftr pat 3) 1) as b3 eqn:E3.
    remember (Z.land (Z.shiftr pat 4) 1) as b4 eqn:E4.
    remember (Z.land (Z.shiftr pat 5) 1) as b5 eqn:E5.
    remember (Z.land (Z.shiftr pat 6) 1) as b6 eqn:E6.
    remember (Z.testbit pat i) as t eqn:Et.
    segment_cases i; digit_cases pos; vm_compute;
      subst b0 b1 b2 b3 b4 b5 b6;
      match type of Et with
      | _ = Z.testbit _ ?k => rewrite (bit_of_pattern pat k) by (clear; lia)
      end;
      rewrite <- Et; destruct t; reflexivity.
  - segment_cases i; vm_compute; (split; [discriminate|reflexivity]).
  - digit_cases pos; repeat constructor; unfold valid_pin; cbn; lia.
Qed.

Lemma display_digit_point (pos value dp : Z) (g : bank) :
  0 <= pos <= 3 ->
  gpio_read SEG_DP (display_digit pos value dp g) = level_of dp.
Proof.
  intros Hpos. unfold display_digit.
  rewrite display_digit_writes_pins by exact Hpos.
  generalize (shown_pattern value). intros pat.
  rewrite gpio_writes_read.
  - remember (Z.land (Z.shiftr pat 0) 1) as b0 eqn:E0.
    remember (Z.land (Z.shiftr pat 1) 1) as b1 eqn:E1.
    remember (Z.land (Z.shiftr pat 2) 1) as b2 eqn:E2.
    remember (Z.land (Z.shiftr pat 3) 1) as b3 eqn:E3.
    remember (Z.land (Z.shiftr pat 4) 1) as b4 eqn:E4.
    remember (Z.land (Z.shiftr pat 5) 1) as b5 eqn:E5.
    remember (Z.land (Z.shiftr pat 6) 1) as b6 eqn:E6.
    digit_cases pos; reflexivity.
  - vm_compute. split; [discriminate|reflexivity].
  - digit_cases pos; repeat constructor; unfold valid_pin; cbn; lia.
Qed.

(** X16: when [display_digit] returns for a position 0 to 3, segment line
    [i] (a to g) is high exactly when bit [i] of the pattern of the value
    is set, the pattern being the table entry for a value up to 9 and
    empty above, so that any larger value leaves all seven segments off;
    the decimal-point line carries the [dp] argument. *)
Theorem display_digit_shows_pattern (pos value dp : Z) (g : bank) :
  0 <= pos <= 3 ->
  (forall i : Z,
      0 <= i <= 6 ->
      gpio_read (at_index seg_pins i) (display_digit pos value dp g)
      = if Z.testbit (if value <=? 9 then at_index seg_patterns value else 0) i
        then GPIO_HIGH else GPIO_LOW)
  /\ (9 < value ->
      forall i : Z,
        0 <= i <= 6 ->
        gpio_read (at_index seg_pins i) (display_digit pos value dp g)
        = GPIO_LOW)
  /\ gpio_read SEG_DP (display_digit pos value dp g)
     = if dp =? GPIO_HIGH then GPIO_HIGH else GPIO_LOW.
Proof.
  intros Hpos. split; [|split].
  - intros i Hi. apply display_digit_segment; assumption.
  - intros Hv i Hi. rewrite display_digit_segment by assumption.
    unfold shown_pattern. destruct (Z.leb_spec value 9); [lia|].
    rewrite Z.bits_0. reflexivity.
  - apply display_digit_point. exact Hpos.
Qed.

Lemma display_digit_shows_pattern_witness :
  gpio_read (at_index seg_pins 6) (display_digit 2 7 0 released) = GPIO_LOW
  /\ gpio_read (at_index seg_pins 3) (display_digit 2 12 0 released) = GPIO_LOW.
Proof.
  split.
  - apply (proj1 (display_digit_shows_pattern 2 7 0 released ltac:(lia)) 6).
    lia.
  - apply (proj1 (proj2 (display_digit_shows_pattern 2 12 0 released
                           ltac:(lia)))); lia.
Defined.

Lemma format_time_mmss_value (s : Z) :
  0 <= s < 39336 -> format_time_mmss s = (s / 60) * 100 + s mod 60.
Proof.
  intros Hs. unfold format_time_mmss, add32, mul32, wrap16.
  assert (0 <= s / 60 <= 655) by (Z.div_mod_to_equations; lia).
  assert (0 <= s mod 60 < 60) by (apply Z.mod_pos_bound; lia).
  assert (s / 60 * 100 + s mod 60 < 65536) by (Z.div_mod_to_equations; lia).
  rewrite (wrap32_small (s / 60 * 100)) by (unfold is_u32; lia).
  rewrite wrap32_small by (unfold is_u32; lia).
  apply Z.mod_small. change (2 ^ 16) with 65536. lia.
Qed.

Lemma mmss_digits (s : Z) :
  0 <= s <= 5999 ->
  wrap8 (((s / 60 * 100 + s mod 60) / 1000) mod 10) = s / 600
  /\ wrap8 (((s / 60 * 100 + s mod 60) / 100) mod 10) = (s / 60) mod 10
  /\ wrap8 (((s / 60 * 100 + s mod 60) / 10) mod 10) = (s mod 60) / 10
  /\ wrap8 ((s / 60 * 100 + s mod 60) mod 10) = s mod 10.
Proof.
  intros Hs. unfold wrap8. change (2 ^ 8) with 256.
  repeat split; Z.div_mod_to_equations; lia.
Qed.

(** X17: for a remaining time of at most 5999 seconds the displayed number
    is [100 * minutes + seconds], and the four multiplex steps of
    [display_number] render the tens and ones of the minutes and the tens
    and ones of the seconds, the decimal point being on with the second
    digit only; the four digits are decimal digits (the third at most 5)
    and determine the time.  The 16-bit result is exact for every time
    below 39336 seconds. *)
Theorem format_time_mmss_digits (s : Z) :
  0 <= s <= 5999 ->
  format_time_mmss s = (s / 60) * 100 + s mod 60
  /\ display_number_writes (format_time_mmss s) 0
     = display_digit_writes 0 (s / 600) 0
  /\ display_number_writes (format_time_mmss s) 1
     = display_digit_writes 1 ((s / 60) mod 10) 1
  /\ display_number_writes (format_time_mmss s) 2
     = display_digit_writes 2 ((s mod 60) / 10) 0
  /\ display_number_writes (format_time_mmss s) 3
     = display_digit_writes 3 (s mod 10) 0
  /\ 600 * (s / 600) + 60 * ((s / 60) mod 10) + 10 * ((s mod 60) / 10)
     + s mod 10 = s
  /\ 0 <= s / 600 <= 9 /\ 0 <= (s / 60) mod 10 <= 9
  /\ 0 <= (s mod 60) / 10 <= 5 /\ 0 <= s mod 10 <= 9
  /\ forall s' : Z,
       0 <= s' < 39336 -> format_time_mmss s' = (s' / 60) * 100 + s' mod 60.
Proof.
  intros Hs. rewrite format_time_mmss_value by lia.
  destruct (mmss_digits s Hs) as (D1 & D2 & D3 & D4).
  split; [reflexivity|]. unfold display_number_writes. cbv zeta.
  rewrite D1, D2, D3, D4.
  repeat (split; [reflexivity|]).
  split; [Z.div_mod_to_equations; lia|].
  repeat (split; [Z.div_mod_to_equations; lia|]).
  exact format_time_mmss_value.
Qed.

Lemma format_time_mmss_digits_witness :
  format_time_mmss 125 = (125 / 60) * 100 + 125 mod 60
  /\ display_number_writes (format_time_mmss 125) 1
     = display_digit_writes 1 ((125 / 60) mod 10) 1.
Proof.
  destruct (format_time_mmss_digits 125) as (Hv & _ & H1 & _); [lia|].
  split; [exact Hv|exact H1].
Defined.

(* ================================================================== *)
(** ** Initialisation of the pins *)

Lemma plain_apart (p q : Z) :
  plain_pin p -> plain_pin q -> q <> p ->
  (pin_register q <> pin_register p \/ bit_pos q <> bit_pos p)
  /\ (get_gpio_port p <> get_gpio_port q \/ Z.land p 31 <> Z.land q 31).
Proof.
  intros [Vp Pp] [Vq Pq] Hne. split; [|apply valid_pin_apart; assumption].
  destruct (bit_pos_range p) as [_ Eb]. destruct (bit_pos_range q) as [_ Eb'].
  unfold valid_pin in Vp, Vq. unfold pin_register.
  destruct (pin_number p) as [-> ->]. destruct (pin_number q) as [-> ->].
  assert (Cp : p / 32 = 0 \/ p / 32 = 1 \/ p / 32 = 2 \/ p / 32 = 3
               \/ p / 32 = 4) by (Z.div_mod_to_equations; lia).
  assert (Cq : q / 32 = 0 \/ q / 32 = 1 \/ q / 32 = 2 \/ q / 32 = 3
               \/ q / 32 = 4) by (Z.div_mod_to_equations; lia).
  destruct Cp as [Ep|[Ep|[Ep|[Ep|Ep]]]]; rewrite Ep;
    destruct Cq as [Eq|[Eq|[Eq|[Eq|Eq]]]]; rewrite Eq;
    cbn [Z.eqb Pos.eqb];
    repeat match goal with
           | |- context [?a <? 16] => destruct (Z.ltb_spec a 16)
           end;
    try (left; discriminate);
    right; rewrite Eb, Eb'; Z.div_mod_to_equations; lia.
Qed.

Lemma chip_write_direction (p q value : Z) (ch : chip) :
  is_output q (io (chip_write p value ch)) = is_output q (io ch).
Proof.
  unfold is_output, chip_write, gpio_write. cbn [io].
  destruct (port_ref_dec (get_gpio_port p) (get_gpio_port q)) as [E|Hne];
    destruct (value =? GPIO_HIGH);
    rewrite <- ?E, ?deref_assign, ?deref_assign_other by exact Hne;
    reflexivity.
Qed.

Lemma init_output_establishes (pin : Z) (ch : chip) :
  valid_pin pin -> output_low pin (init_output ch pin).
Proof.
  intros Hp. unfold output_low, init_output.
  destruct (gpio_config_fields pin GPIO_OUTPUT GPIO_PULL_NONE ch Hp)
    as [Hsel Hmode]; [unfold GPIO_PULL_NONE; lia|].
  repeat split.
  - exact Hsel.
  - exact Hmode.
  - rewrite chip_write_direction. apply gpio_config_direction.
  - unfold chip_write. cbn [io]. apply gpio_read_write.
Qed.

Lemma gpio_config_keeps_output_low (p q dir pull : Z) (ch : chip) :
  plain_pin p -> plain_pin q -> q <> p -> 0 <= pull <= 3 ->
  output_low q ch -> output_low q (gpio_config p dir pull ch).
Proof.
  intros Hp Hq Hne Hpull (Hsel & Hmode & Hdir & Hlow).
  destruct (plain_apart p q Hp Hq Hne) as [Hf Hb].
  destruct (gpio_config_other_fields p q dir pull ch Hpull Hf) as [Es Em].
  unfold output_low. rewrite Es, Em.
  rewrite gpio_config_other_direction by exact Hb.
  repeat split; try assumption.
  unfold gpio_read. rewrite gpio_config_levels. exact Hlow.
Qed.

Lemma init_output_keeps (p q : Z) (ch : chip) :
  plain_pin p -> plain_pin q -> q <> p ->
  output_low q ch -> output_low q (init_output ch p).
Proof.
  intros Hp Hq Hne Hlow. unfold init_output.
  destruct (gpio_config_keeps_output_low p q GPIO_OUTPUT GPIO_PULL_NONE ch
              Hp Hq Hne ltac:(unfold GPIO_PULL_NONE; lia) Hlow)
    as (Hsel & Hmode & Hdir & Hread).
  unfold output_low. unfold chip_write at 1 2. cbn [con].
  rewrite chip_write_direction. repeat split; try assumption.
  unfold chip_write. cbn [io].
  rewrite gpio_read_write_other; [exact Hread|].
  apply (plain_apart p q Hp Hq Hne).
Qed.

Lemma init_outputs_low (pins : list Z) :
  forall (done : list Z) (ch : chip),
    Forall plain_pin (done ++ pins) ->
    NoDup (done ++ pins) ->
    (forall q, In q done -> output_low q ch) ->
    forall q, In q (done ++ pins) ->
              output_low q (fold_left init_output pins ch).
Proof.
  induction pins as [|p pins IH]; intros done ch Hplain Hnd Hdone q Hq.
  - rewrite app_nil_r in Hq. apply Hdone, Hq.
  - cbn [fold_left].
    assert (E : done ++ p :: pins = (done ++ [p]) ++ pins)
      by (rewrite <- app_assoc; reflexivity).
    rewrite E in Hplain, Hnd, Hq.
    apply (IH (done ++ [p])); try assumption.
    intros x Hx. apply in_app_or in Hx.
    rewrite Forall_forall in Hplain.
    assert (Pp : plain_pin p) by (apply Hplain; apply in_or_app; left;
                                   apply in_or_app; right; left; reflexivity).
    destruct Hx as [Hx|[<-|[]]].
    + apply init_output_keeps; try assumption.
      * apply Hplain. apply in_or_app. left. apply in_or_app. left. exact Hx.
      * intros ->. rewrite <- E in Hnd. apply NoDup_remove_2 in Hnd.
        apply Hnd. apply in_or_app. left. exact Hx.
      * apply Hdone, Hx.
    + apply init_output_establishes. apply Pp.
Qed.

Lemma init_outputs_levels (pins : list Z) :
  forall (ch : chip) (q : Z),
    valid_pin q -> Forall valid_pin pins -> ~ In q pins ->
    gpio_read q (io (fold_left init_output pins ch)) = gpio_read q (io ch).
Proof.
  induction pins as [|p pins IH]; intros ch q Hq Hpins Hnot; [reflexivity|].
  inversion Hpins as [|? ? Hp Hrest]; subst. cbn [fold_left].
  rewrite IH; try assumption.
  - unfold init_output, chip_write. cbn [io].
    rewrite gpio_read_write_other.
    + unfold gpio_read. rewrite gpio_config_levels. reflexivity.
    + apply valid_pin_apart; try assumption.
      intros ->. apply Hnot. left. reflexivity.
  - intros Hin. apply Hnot. right. exact Hin.
Qed.

Lemma display_init_fold (ch : chip) :
  display_init ch = fold_left init_output (seg_pins ++ digit_pins) ch.
Proof. reflexivity. Qed.

Lemma display_pins_plain :
  Forall plain_pin (seg_pins ++ digit_pins)
  /\ NoDup (seg_pins ++ digit_pins)
  /\ Forall plain_pin [BTN_COUNTDOWN; BTN_SET; BTN_START; BTN_RESET].
Proof.
  split; [|split].
  - repeat constructor; vm_compute; intuition discriminate.
  - repeat constructor; cbn; intuition discriminate.
  - repeat constructor; vm_compute; intuition discriminate.
Qed.

Lemma display_pin_range (q : Z) :
  In q (seg_pins ++ digit_pins) -> 0 <= q <= 7 \/ 64 <= q <= 67.
Proof. intros H. vm_compute in H. intuition lia. Qed.

Lemma button_pin_range (b : Z) :
  In b [BTN_COUNTDOWN; BTN_SET; BTN_START; BTN_RESET] -> 52 <= b <= 55.
Proof. intros H. vm_compute in H. intuition lia. Qed.

Lemma gpio_config_makes_input (pin : Z) (ch : chip) :
  valid_pin pin ->
  input_pulled_up pin (gpio_config pin GPIO_INPUT GPIO_PULL_UP ch).
Proof.
  intros Hp. unfold input_pulled_up.
  destruct (gpio_config_fields pin GPIO_INPUT GPIO_PULL_UP ch Hp)
    as [Hsel Hmode]; [unfold GPIO_PULL_UP; lia|].
  repeat split; try assumption. apply gpio_config_direction.
Qed.

Lemma gpio_config_keeps_input (p q dir pull : Z) (ch : chip) :
  plain_pin p -> plain_pin q -> q <> p -> 0 <= pull <= 3 ->
  input_pulled_up q ch -> input_pulled_up q (gpio_config p dir pull ch).
Proof.
  intros Hp Hq Hne Hpull (Hsel & Hmode & Hdir).
  destruct (plain_apart p q Hp Hq Hne) as [Hf Hb].
  destruct (gpio_config_other_fields p q dir pull ch Hpull Hf) as [Es Em].
  unfold input_pulled_up. rewrite Es, Em.
  rewrite gpio_config_other_direction by exact Hb.
  repeat split; assumption.
Qed.

Lemma buttons_init_levels (ch : chip) (q : Z) :
  gpio_read q (io (buttons_init ch)) = gpio_read q (io ch).
Proof.
  unfold buttons_init, gpio_read. cbv zeta. rewrite !gpio_config_levels.
  reflexivity.
Qed.

Lemma buttons_init_keeps_output_low (q : Z) (ch : chip) :
  In q (seg_pins ++ digit_pins) ->
  output_low q ch -> output_low q (buttons_init ch).
Proof.
  intros Hq Hlow.
  destruct display_pins_plain as (Hdisp & _ & Hbtn).
  rewrite Forall_forall in Hdisp, Hbtn.
  pose proof (display_pin_range q Hq) as Rq.
  assert (K : forall b c,
             In b [BTN_COUNTDOWN; BTN_SET; BTN_START; BTN_RESET] ->
             output_low q c ->
             output_low q (gpio_config b GPIO_INPUT GPIO_PULL_UP c)).
  { intros b c Hb Hc. pose proof (button_pin_range b Hb).
    apply gpio_config_keeps_output_low; auto; try lia.
    unfold GPIO_PULL_UP. lia. }
  unfold buttons_init. cbv zeta.
  apply K; [cbn; tauto|]. apply K; [cbn; tauto|].
  apply K; [cbn; tauto|]. apply K; [cbn; tauto|]. exact Hlow.
Qed.

Lemma buttons_init_inputs (b : Z) (ch : chip) :
  In b [BTN_COUNTDOWN; BTN_SET; BTN_START; BTN_RESET] ->
  input_pulled_up b (buttons_init ch).
Proof.
  intros Hb.
  destruct display_pins_plain as (_ & _ & Hbtn).
  rewrite Forall_forall in Hbtn.
  assert (K : forall p q c,
             In p [BTN_COUNTDOWN; BTN_SET; BTN_START; BTN_RESET] ->
             In q [BTN_COUNTDOWN; BTN_SET; BTN_START; BTN_RESET] ->
             q <> p ->
             input_pulled_up q c ->
             input_pulled_up q (gpio_config p GPIO_INPUT GPIO_PULL_UP c)).
  { intros p q c Hp Hq Hne Hc.
    apply gpio_config_keeps_input; auto. unfold GPIO_PULL_UP. lia. }
  assert (E : forall p c,
             In p [BTN_COUNTDOWN; BTN_SET; BTN_START; BTN_RESET] ->
             input_pulled_up p (gpio_config p GPIO_INPUT GPIO_PULL_UP c)).
  { intros p c Hp. apply gpio_config_makes_input. apply Hbtn, Hp. }
  unfold buttons_init. cbv zeta.
  destruct Hb as [<-|[<-|[<-|[<-|[]]]]].
  - apply K; [cbn; tauto|cbn; tauto|discriminate|].
    apply K; [cbn; tauto|cbn; tauto|discriminate|].
    apply K; [cbn; tauto|cbn; tauto|discriminate|].
    apply E. cbn; tauto.
  - apply K; [cbn; tauto|cbn; tauto|discriminate|].
    apply K; [cbn; tauto|cbn; tauto|discriminate|].
    apply E. cbn; tauto.
  - apply K; [cbn; tauto|cbn; tauto|discriminate|].
    apply E. cbn; tauto.
  - apply E. cbn; tauto.
Qed.

Lemma pins_set_up (ch : chip) :
  (forall q : Z,
      In q (seg_pins ++ digit_pins) ->
      output_low q (buttons_init (display_init (gpio_init ch))))
  /\ (forall b : Z,
         In b [BTN_COUNTDOWN; BTN_SET; BTN_START; BTN_RESET] ->
         input_pulled_up b (buttons_init (display_init (gpio_init ch))))
  /\ (forall q : Z,
         valid_pin q -> ~ In q (seg_pins ++ digit_pins) ->
         gpio_read q (io (buttons_init (display_init (gpio_init ch))))
         = gpio_read q (io ch))
  /\ enabled_digits (io (buttons_init (display_init (gpio_init ch)))) = [].
Proof.
  unfold gpio_init.
  destruct display_pins_plain as (Hdisp & Hnd & _).
  assert (Hlow : forall q : Z,
             In q (seg_pins ++ digit_pins) ->
             output_low q (buttons_init (display_init ch))).
  { intros q Hq. apply buttons_init_keeps_output_low; [exact Hq|].
    rewrite display_init_fold.
    apply (init_outputs_low (seg_pins ++ digit_pins) [] ch); try assumption.
    intros x []. }
  split; [exact Hlow|]. split; [intros b Hb; apply buttons_init_inputs, Hb|].
  split.
  - intros q Hq Hnot. rewrite buttons_init_levels, display_init_fold.
    apply init_outputs_levels; try assumption.
    rewrite Forall_forall in Hdisp. apply Forall_forall.
    intros x Hx. apply (Hdisp x Hx).
  - unfold enabled_digits.
    assert (D : forall i, In i [0; 1; 2; 3] ->
                          gpio_read (at_index digit_pins i)
                            (io (buttons_init (display_init ch))) = GPIO_LOW).
    { intros i Hi. apply Hlow.
      destruct Hi as [<-|[<-|[<-|[<-|[]]]]]; cbn; tauto. }
    cbn [filter].
    rewrite (D 0), (D 1), (D 2), (D 3) by (cbn; tauto). reflexivity.
Qed.

(** X18: the pin set-up of [main].  After [display_init] and
    [buttons_init] each of the eight segment pins and four digit pins is a
    GPIO output without pull resistor that drives low, so that no digit is
    enabled; each of the four button pins is a GPIO input with its pull-up
    on; and every valid pin that is no display pin reads what it read
    before. *)
Theorem pins_initialised (ch : chip) :
  (forall q : Z,
      In q (seg_pins ++ digit_pins) ->
      output_low q (buttons_init (display_init (gpio_init ch))))
  /\ (forall b : Z,
         In b [BTN_COUNTDOWN; BTN_SET; BTN_START; BTN_RESET] ->
         input_pulled_up b (buttons_init (display_init (gpio_init ch))))
  /\ (forall q : Z,
         valid_pin q -> ~ In q (seg_pins ++ digit_pins) ->
         gpio_read q (io (buttons_init (display_init (gpio_init ch))))
         = gpio_read q (io ch))
  /\ enabled_digits (io (buttons_init (display_init (gpio_init ch)))) = [].
Proof. apply pins_set_up. Qed.

Lemma pins_initialised_witness :
  output_low SEG_A
    (buttons_init
       (display_init
          (gpio_init (mkChip (mkPincon (mkRegs 0 0 0 0 0 0 0)
                                       (mkRegs 0 0 0 0 0 0 0))
                             released))))
  /\ input_pulled_up BTN_START
       (buttons_init
          (display_init
             (gpio_init (mkChip (mkPincon (mkRegs 0 0 0 0 0 0 0)
                                          (mkRegs 0 0 0 0 0 0 0))
                                released))))
  /\ gpio_read P0_22
       (io (buttons_init
              (display_init
                 (gpio_init (mkChip (mkPincon (mkRegs 0 0 0 0 0 0 0)
                                              (mkRegs 0 0 0 0 0 0 0))
                                    released)))))
     = gpio_read P0_22 released.
Proof.
  destruct (pins_initialised
              (mkChip (mkPincon (mkRegs 0 0 0 0 0 0 0) (mkRegs 0 0 0 0 0 0 0))
                      released)) as (Hout & Hin & Hrest & _).
  split; [|split].
  - apply Hout. cbn. tauto.
  - apply Hin. cbn. tauto.
  - apply Hrest.
    + unfold valid_pin. cbn. lia.
    + vm_compute. intuition discriminate.
Defined.

(* ================================================================== *)
(** ** A pass over the buttons, and the main loop *)

Lemma edge_store_other (pin : Z) (p q : prev_ref) (v : Z) (m : machine) :
  q <> p -> edge pin q (store p v m) = edge pin q m.
Proof. intros H. destruct p, q; try reflexivity; contradiction. Qed.

Lemma if_button_no_edge (pin : Z) (p : prev_ref) (body : machine -> machine)
  (m : machine) :
  edge pin p m = false ->
  if_button pin p body m = Ok (store p (c_not (gpio_read pin (gpio m))) m).
Proof. intros H. rewrite if_button_closed, H. reflexivity. Qed.

Lemma if_button_edge (pin : Z) (p : prev_ref) (body : machine -> machine)
  (m : machine) :
  edge pin p m = true ->
  if_button pin p body m
  = Ok (body (store p 1 (set_clk (ticks 50 (clk m)) m))).
Proof.
  intros H. rewrite if_button_closed, H.
  unfold edge in H. apply andb_prop in H. destruct H as [H _].
  apply Z.eqb_eq in H. rewrite H. reflexivity.
Qed.

Lemma store_gpio (p : prev_ref) (v : Z) (m : machine) :
  gpio (store p v m) = gpio m.
Proof. destruct p; reflexivity. Qed.

(** X19: a pass over the buttons in which no poll sees a new press leaves
    the state, the remaining and the set time, the reference tick, the clock
    and the pins as they are, takes no debounce delay, and records in each
    button's history what its pin read. *)
Theorem process_buttons_idle (m : machine) :
  edge BTN_COUNTDOWN Ref_btn_countdown_prev m = false ->
  edge BTN_SET Ref_btn_set_prev m = false ->
  edge BTN_START Ref_btn_start_prev m = false ->
  edge BTN_RESET Ref_btn_reset_prev m = false ->
  exists m',
    process_buttons m = Ok m'
    /\ state m' = state m
    /\ timer_value m' = timer_value m
    /\ set_value m' = set_value m
    /\ last_tick m' = last_tick m
    /\ clk m' = clk m
    /\ gpio m' = gpio m
    /\ current_digit m' = current_digit m
    /\ btn_countdown_prev m' = c_not (gpio_read BTN_COUNTDOWN (gpio m))
    /\ btn_set_prev m' = c_not (gpio_read BTN_SET (gpio m))
    /\ btn_start_prev m' = c_not (gpio_read BTN_START (gpio m))
    /\ btn_reset_prev m' = c_not (gpio_read BTN_RESET (gpio m)).
Proof.
  intros H1 H2 H3 H4. unfold process_buttons.
  rewrite if_button_no_edge by exact H1. cbn [bind].
  rewrite if_button_no_edge
    by (rewrite edge_store_other by discriminate; exact H2).
  cbn [bind].
  rewrite if_button_no_edge
    by (rewrite !edge_store_other by discriminate; exact H3).
  cbn [bind].
  rewrite if_button_no_edge
    by (rewrite !edge_store_other by discriminate; exact H4).
  rewrite !store_gpio.
  eexists. split; [reflexivity|]. repeat split.
Qed.

Lemma process_buttons_idle_witness :
  exists m',
    process_buttons (running 1500 0 5) = Ok m'
    /\ state m' = state (running 1500 0 5)
    /\ timer_value m' = timer_value (running 1500 0 5)
    /\ set_value m' = set_value (running 1500 0 5)
    /\ last_tick m' = last_tick (running 1500 0 5)
    /\ clk m' = clk (running 1500 0 5)
    /\ gpio m' = gpio (running 1500 0 5)
    /\ current_digit m' = current_digit (running 1500 0 5)
    /\ btn_countdown_prev m'
       = c_not (gpio_read BTN_COUNTDOWN (gpio (running 1500 0 5)))
    /\ btn_set_prev m' = c_not (gpio_read BTN_SET (gpio (running 1500 0 5)))
    /\ btn_start_prev m'
       = c_not (gpio_read BTN_START (gpio (running 1500 0 5)))
    /\ btn_reset_prev m'
       = c_not (gpio_read BTN_RESET (gpio (running 1500 0 5))).
Proof.
  apply (process_buttons_idle (running 1500 0 5)); reflexivity.
Defined.

(** X20: a Start press in [STATE_SET], no other button being newly
    pressed in the pass: the pass ends in [STATE_RUNNING] with the
    remaining time equal to [set_value], and the one-second reference is
    the tick count after the 50 ms debounce delay, which is the tick count
    the pass returns with; the first second is therefore counted from the
    end of the debounce, not from the press. *)
Theorem start_press_arms_countdown (m : machine) :
  state m = STATE_SET ->
  edge BTN_COUNTDOWN Ref_btn_countdown_prev m = false ->
  edge BTN_SET Ref_btn_set_prev m = false ->
  edge BTN_START Ref_btn_start_prev m = true ->
  edge BTN_RESET Ref_btn_reset_prev m = false ->
  exists m',
    process_buttons m = Ok m'
    /\ state m' = STATE_RUNNING
    /\ timer_value m' = set_value m
    /\ set_value m' = set_value m
    /\ clk m' = ticks 50 (clk m)
    /\ last_tick m' = millis (clk m')
    /\ btn_start_prev m' = 1.
Proof.
  intros Hs H1 H2 H3 H4. unfold process_buttons.
  rewrite if_button_no_edge by exact H1. cbn [bind].
  rewrite if_button_no_edge
    by (rewrite edge_store_other by discriminate; exact H2).
  cbn [bind].
  rewrite if_button_edge
    by (rewrite !edge_store_other by discriminate; exact H3).
  cbn [bind].
  remember (ticks 50 (clk m)) as c50 eqn:Ec.
  set (m2 := store Ref_btn_set_prev _ (store Ref_btn_countdown_prev _ m)).
  assert (Ec2 : clk m2 = clk m) by reflexivity.
  assert (Es2 : state m2 = STATE_SET) by exact Hs.
  assert (Ev2 : set_value m2 = set_value m) by reflexivity.
  rewrite Ec2, <- Ec.
  set (m3 := store Ref_btn_start_prev 1 (set_clk c50 m2)).
  assert (E : on_start m3
              = set_last_tick (millis c50)
                  (set_timer_value (set_value m)
                     (set_state STATE_RUNNING m3))).
  { unfold on_start.
    assert (Es3 : state m3 = STATE_SET) by exact Es2.
    rewrite Es3. reflexivity. }
  rewrite E.
  rewrite if_button_no_edge.
  - eexists. split; [reflexivity|]. repeat split.
  - assert (F : edge BTN_RESET Ref_btn_reset_prev
                  (set_last_tick (millis c50)
                     (set_timer_value (set_value m)
                        (set_state STATE_RUNNING m3)))
                = edge BTN_RESET Ref_btn_reset_prev m) by reflexivity.
    rewrite F. exact H4.
Qed.

Lemma start_press_arms_countdown_witness :
  exists m',
    process_buttons (drive BTN_START GPIO_LOW (boot power_on released)) = Ok m'
    /\ state m' = STATE_RUNNING
    /\ timer_value m'
       = set_value (drive BTN_START GPIO_LOW (boot power_on released))
    /\ set_value m'
       = set_value (drive BTN_START GPIO_LOW (boot power_on released))
    /\ clk m'
       = ticks 50 (clk (drive BTN_START GPIO_LOW (boot power_on released)))
    /\ last_tick m' = millis (clk m')
    /\ btn_start_prev m' = 1.
Proof.
  apply (start_press_arms_countdown
           (drive BTN_START GPIO_LOW (boot power_on released)));
    reflexivity.
Defined.

Lemma body_digit (body : machine -> machine) (m : machine) :
  In body [on_countdown; on_set; on_start; on_reset] ->
  current_digit (body m) = current_digit m.
Proof.
  intros [<-|[<-|[<-|[<-|[]]]]].
  - unfold on_countdown. destruct (state_eqb (state m) STATE_SET); reflexivity.
  - unfold on_set. destruct (state_eqb (state m) STATE_SET); [|reflexivity].
    cbn. destruct (add32 (set_value m) 10 >? 5999); reflexivity.
  - unfold on_start. destruct (state m); reflexivity.
  - reflexivity.
Qed.

Lemma if_button_digit (pin : Z) (p : prev_ref) (body : machine -> machine)
  (m m' : machine) :
  In body [on_countdown; on_set; on_start; on_reset] ->
  if_button pin p body m = Ok m' ->
  current_digit m' = current_digit m /\ gpio m' = gpio m.
Proof.
  intros Hb E. split; [|apply (if_button_frame pin p body m m' Hb E)].
  rewrite if_button_closed in E. apply Ok_inj in E. subst m'.
  destruct (edge pin p m); [rewrite (body_digit body _ Hb)|];
    destruct p; reflexivity.
Qed.

Lemma process_buttons_total (m : machine) :
  exists m',
    process_buttons m = Ok m'
    /\ current_digit m' = current_digit m /\ gpio m' = gpio m.
Proof.
  unfold process_buttons.
  destruct (if_button BTN_COUNTDOWN Ref_btn_countdown_prev on_countdown m)
    as [m1|] eqn:E1; [|rewrite if_button_closed in E1; discriminate].
  destruct (if_button BTN_SET Ref_btn_set_prev on_set m1)
    as [m2|] eqn:E2; [|rewrite if_button_closed in E2; discriminate].
  destruct (if_button BTN_START Ref_btn_start_prev on_start m2)
    as [m3|] eqn:E3; [|rewrite if_button_closed in E3; discriminate].
  destruct (if_button BTN_RESET Ref_btn_reset_prev on_reset m3)
    as [m4|] eqn:E4; [|rewrite if_button_closed in E4; discriminate].
  cbn [bind]. rewrite E2. cbn [bind]. rewrite E3. cbn [bind]. rewrite E4.
  apply if_button_digit in E1, E2, E3, E4; try (cbn; tauto).
  destruct E1 as [D1 G1], E2 as [D2 G2], E3 as [D3 G3], E4 as [D4 G4].
  exists m4. split; [reflexivity|]. split; congruence.
Qed.

Lemma timer_update_frame (m : machine) :
  current_digit (timer_update m) = current_digit m
  /\ gpio (timer_update m) = gpio m.
Proof.
  unfold timer_update.
  destruct (state_eqb (state m) STATE_RUNNING
            && (sub32 (millis (clk m)) (last_tick m) >=? 1000));
    [|split; reflexivity].
  cbn. destruct (timer_value m >? 0); split; reflexivity.
Qed.

Lemma delay_us_2000 (vals : list Z) (c : clock) :
  delay_us vals 2000 c = Ok (mkReport (ticks 2 c) None 0).
Proof.
  unfold delay_us, delay_us_in, delay_ms_in.
  change (2000 >=? 1000) with true. cbv iota zeta.
  change (2000 / 1000) with 2. change (Z.to_nat 2) with 2%nat.
  change c with (ticks 0 c) at 2.
  rewrite (delay_ms_loop_unit 2 0%N 2 c) by lia.
  reflexivity.
Qed.

Lemma set_gpio_same (m : machine) : set_gpio (gpio m) m = m.
Proof. destruct m; reflexivity. Qed.

Lemma main_loop_body_closed (vals : list Z) (m m1 : machine) :
  process_buttons m = Ok m1 ->
  main_loop_body vals m
  = Ok (set_clk
          (ticks 2 (clk (display_number
                           (format_time_mmss (timer_value (timer_update m1)))
                           (timer_update m1))))
          (display_number (format_time_mmss (timer_value (timer_update m1)))
                          (timer_update m1))).
Proof.
  intros E. unfold main_loop_body. rewrite E. cbn [bind]. cbv zeta.
  rewrite delay_us_2000. reflexivity.
Qed.

(** X21: the program as a whole.  [main] up to its loop, started from the
    initialised globals, completes: the state is [STATE_SET], the remaining
    time the default 60 s, the tick count 0 with a reload value of 11999,
    no digit enabled, and [us_per_tick] is 0.  Every pass of the loop
    completes from every state, in particular without a division by that
    zero, since its only delay is a whole number of milliseconds.  From a
    reachable state the pass ends in a reachable state within the ranges
    of the data model, with the digit of the old position lit alone and the
    position moved on by one modulo 4. *)
Theorem main_runs :
  (forall (pc : pincon) (c : clock) (g : bank),
      exists pc' m',
        main_setup pc (boot c g) = Ok (pc', m')
        /\ reachable m'
        /\ state m' = STATE_SET
        /\ timer_value m' = 60
        /\ set_value m' = 60
        /\ systick_counter (clk m') = 0
        /\ LOAD (SYSTICK (clk m')) = 11999
        /\ us_per_tick (clk m') = 0
        /\ enabled_digits (gpio m') = [])
  /\ (forall (vals : list Z) (m : machine),
         exists m', main_loop_body vals m = Ok m')
  /\ (forall (vals : list Z) (m : machine),
         reachable m ->
         exists m',
           main_loop_body vals m = Ok m'
           /\ reachable m'
           /\ in_range m'
           /\ enabled_digits (gpio m') = [current_digit m]
           /\ current_digit m' = (current_digit m + 1) mod 4).
Proof.
  split; [|split].
  - intros pc c g. unfold main_setup.
    change (systick_init 12000000 (clk (boot c g)))
      with (Ok (mkClock (mkSYSTICK 7 11999 0 (CALIB (SYSTICK c))) 0 0)).
    cbn [bind]. cbv zeta. do 2 eexists. split; [reflexivity|].
    split.
    + match goal with
      | |- reachable (set_timer_value _ (set_gpio ?g' (set_clk ?c' _))) =>
          change (reachable
                    (set_timer_value
                       (set_value (set_clk c' (set_gpio g' (boot c g))))
                       (set_clk c' (set_gpio g' (boot c g)))))
      end.
      apply reach_arm, reach_hardware, reach_boot.
    + repeat (split; [reflexivity|]).
      cbn [gpio set_timer_value set_gpio set_clk boot].
      apply pins_set_up.
  - intros vals m. destruct (process_buttons_total m) as (m1 & E & _).
    eexists. apply main_loop_body_closed. exact E.
  - intros vals m R.
    destruct (process_buttons_reachable m R) as (m1 & E & R1).
    destruct (process_buttons_total m) as (m1' & E' & D1 & G1).
    rewrite E in E'. apply Ok_inj in E'. subst m1'.
    rewrite (main_loop_body_closed vals m m1 E).
    set (m2 := timer_update m1).
    set (m3 := display_number (format_time_mmss (timer_value m2)) m2).
    assert (R2 : reachable m2) by (apply reach_update, R1).
    assert (R3 : reachable m3) by (apply reach_display, R2).
    assert (D2 : current_digit m2 = current_digit m)
      by (unfold m2; rewrite (proj1 (timer_update_frame m1)); exact D1).
    pose proof (reachable_digit m2 R2) as Hd.
    destruct (display_number_one (format_time_mmss (timer_value m2)) m2 Hd)
      as (_ & _ & _ & He & Hn).
    fold m3 in He, Hn.
    eexists. split; [reflexivity|].
    assert (R4 : reachable (set_clk (ticks 2 (clk m3)) m3)).
    { rewrite <- (set_gpio_same m3) at 2. apply reach_hardware, R3. }
    split; [exact R4|]. split; [apply reachable_in_range, R4|].
    cbn [gpio current_digit set_clk]. rewrite He, Hn, D2. split; reflexivity.
Qed.

Lemma main_runs_witness :
  exists m',
    main_loop_body [] (boot power_on released) = Ok m'
    /\ reachable m'
    /\ in_range m'
    /\ enabled_digits (gpio m') = [current_digit (boot power_on released)]
    /\ current_digit m' = (current_digit (boot power_on released) + 1) mod 4.
Proof.
  apply (proj2 (proj2 main_runs) [] (boot power_on released)).
  apply reach_boot.
Defined.
